(** * HARP: the libtorch model wrapper (Source/DeepLearning/TorchModel.cpp)

    A shallow embedding of [TorchModel] / [TorchWave2Wave] and of the caller
    [AudioModification::process], followed by the properties the design
    document states about them.

    Conventions.
    - C++ exceptions, failed [assert]s and null dereferences are explicit
      outcomes of a computation; state changes made before one of them
      happens are kept, as in C++.
    - libtorch and JUCE are not part of the repository.  What the code asks
      of them is either a field of the environment record [Torch] (graph
      deserialisation, the graph's methods, tensor arithmetic) or written
      out from the documented behaviour of the call ([from_blob],
      [AudioBuffer::setSize], [ChangeBroadcaster::sendChangeMessage]).
    - [DBG] lines are debug-only output and are left out; [std::cout] and
      [std::cerr] lines are kept as trace events. *)

From Stdlib Require Import ZArith Floats.SpecFloat.
From stdpp Require Import gmap strings list fin_maps pretty.

Set Warnings "-register-all".
Open Scope string_scope.
Open Scope Z_scope.

(** ** Outcomes of a C++ call *)

(** The exception types that can reach the handlers of this file.  The two
    [catch] clauses of TorchModel.cpp both catch a [const char*] only. *)
Inductive exn : Type :=
| CString (msg : string)        (* throw of a C string literal: a const char* *)
| C10Error (msg : string)       (* c10::Error and its subclasses, thrown by libtorch *)
| BadAnyCast                    (* std::bad_any_cast *)
| StdException (what : string). (* any other std::exception *)

Inductive fault : Type :=
| AssertionFailure              (* assert(...) failed: abort() *)
| NullDereference               (* -> on a null unique_ptr or a dangling pointer *)
| Deadlock.                     (* blocked for ever on a mutex *)

Inductive outcome (A : Type) : Type :=
| Normal (a : A)
| Thrown (e : exn)
| Fatal (f : fault).
Arguments Normal {A} a.
Arguments Thrown {A} e.
Arguments Fatal {A} f.

(** A computation over a mutable state [S]: the state it leaves is returned
    on every outcome. *)
Definition M (S A : Type) : Type := S -> outcome A * S.

Definition ret {S A} (a : A) : M S A := fun s => (Normal a, s).

Definition bind {S A B} (m : M S A) (k : A -> M S B) : M S B :=
  fun s =>
    match m s with
    | (Normal a, s') => k a s'
    | (Thrown e, s') => (Thrown e, s')
    | (Fatal f, s') => (Fatal f, s')
    end.

Definition throw {S A} (e : exn) : M S A := fun s => (Thrown e, s).
Definition crash {S A} (f : fault) : M S A := fun s => (Fatal f, s).
Definition get {S} : M S S := fun s => (Normal s, s).
Definition modify {S} (f : S -> S) : M S unit := fun s => (Normal tt, f s).

(** Lift the result of a library call that has no access to the state. *)
Definition lift {S A} (r : outcome A) : M S A := fun s => (r, s).

(** [try { body } catch (const char* msg) { handler }]: only a thrown C
    string is caught; every other exception, and every fault, passes. *)
Definition try_catch_cstr {S A} (body : M S A) (handler : string -> M S A) : M S A :=
  fun s =>
    match body s with
    | (Thrown (CString msg), s') => handler msg s'
    | r => r
    end.

Declare Scope cpp_scope.
Delimit Scope cpp_scope with cpp.
Notation "x <- c1 ;; c2" := (bind c1 (fun x => c2))
  (at level 100, c1 at next level, right associativity) : cpp_scope.
Notation "c1 ;; c2" := (bind c1 (fun _ => c2))
  (at level 100, right associativity) : cpp_scope.
Open Scope cpp_scope.

(** [for (x : xs) body] *)
Fixpoint for_each {S A} (xs : list A) (body : A -> M S unit) : M S unit :=
  match xs with
  | [] => ret tt
  | x :: rest => body x ;; for_each rest body
  end.

(** ** Numbers *)

(** A C++ [double] (and the value of a [float]) as an IEEE-754 value. *)
Abbreviation double := spec_float.

Definition double_of_int (z : Z) : double := binary_normalize 53 1024 z 0 false.

(** [static_cast<double>(float)]: every [float] is a [double]; only the
    representation is renormalised. *)
Definition double_of_float (f : spec_float) : double :=
  match f with
  | S754_finite s m e => binary_normalize 53 1024 (cond_Zopp s (Zpos m)) e s
  | other => other
  end.

Definition double_of_bool (b : bool) : double := double_of_int (if b then 1 else 0).

(** [static_cast<int>] of an [int64_t]: the low 32 bits, as a signed value. *)
Definition to_int (z : Z) : Z := (z + 2 ^ 31) mod 2 ^ 32 - 2 ^ 31.

(** ** [std::any] *)

(** The dynamic type a [std::any] holds.  The five types the code tests for
    are distinguished; every other type is [AnyOther] with its name. *)
Inductive any : Type :=
| AnyInt (i : Z)
| AnyFloat (f : spec_float)
| AnyDouble (d : double)
| AnyBool (b : bool)
| AnyString (s : string)
| AnyOther (type_name : string).

(** [any_cast<string>(a)] *)
Definition any_cast_string (a : any) : outcome string :=
  match a with
  | AnyString s => Normal s
  | _ => Thrown BadAnyCast
  end.

(** ** Tensors and IValues *)

Inductive ScalarType : Type := kFloat | kDouble | kLong | kOtherType.

(** A dense tensor of a given element type, shape and row-major storage
    (one element pattern per entry), or the tensor that
    [torch::tensor({v1, ..., vn})] builds from a list of doubles: a 1-D
    tensor of [n] elements. *)
Inductive Tensor : Type :=
| Dense (dtype : ScalarType) (sizes : list Z) (data : list Z)
| torch_tensor (vals : list double).

Definition tensor_sizes (t : Tensor) : list Z :=
  match t with
  | Dense _ sz _ => sz
  | torch_tensor vals => [Z.of_nat (length vals)]
  end.

(** [t.dim()] *)
Definition dim (t : Tensor) : Z := Z.of_nat (length (tensor_sizes t)).

Inductive IValue : Type :=
| IVNone
| IVTensor (t : Tensor)
| IVInt (i : Z)
| IVDouble (d : double)
| IVString (s : string)
| IVList (l : list IValue)
| IVObject (slots : gmap string IValue)
| IVTensorDict (d : gmap string Tensor).

Definition toTensor (v : IValue) : outcome Tensor :=
  match v with IVTensor t => Normal t | _ => Thrown (C10Error "Expected Tensor") end.
Definition toObject (v : IValue) : outcome (gmap string IValue) :=
  match v with IVObject o => Normal o | _ => Thrown (C10Error "Expected Object") end.
Definition toStringRef (v : IValue) : outcome string :=
  match v with IVString s => Normal s | _ => Thrown (C10Error "Expected String") end.
Definition toInt (v : IValue) : outcome Z :=
  match v with IVInt i => Normal i | _ => Thrown (C10Error "Expected Int") end.
Definition toListRef (v : IValue) : outcome (list IValue) :=
  match v with IVList l => Normal l | _ => Thrown (C10Error "Expected GenericList") end.

(** [obj->getAttr(name)] and [module.attr(name)] *)
Definition getAttr (o : gmap string IValue) (name : string) : outcome IValue :=
  match o !! name with
  | Some v => Normal v
  | None => Thrown (C10Error ("no attribute " +:+ name))
  end.

(** A deserialised TorchScript module: its attributes, its methods (each a
    function of the argument vector that returns or throws) and its
    training flag. *)
Record ScriptModule : Type := {
  attributes : gmap string IValue;
  methods : gmap string (list IValue -> outcome IValue);
  training : bool
}.

Definition eval (m : ScriptModule) : ScriptModule :=
  {| attributes := attributes m; methods := methods m; training := false |}.

(** What the code needs from libtorch beyond the above. *)
Record Torch : Type := {
  jit_load : string -> outcome ScriptModule;         (* torch::jit::load(path) *)
  mean_dim0_keepdim : Tensor -> Tensor               (* t.mean(0, true) *)
}.

(** ** Memory and [juce::AudioBuffer<float>]

    [to_tensor] hands libtorch a raw address, so sample storage is modelled
    as memory: 4-byte cells addressed by byte address, each holding the bit
    pattern of one [float] or one half of a 64-bit little-endian pointer
    (the platforms libtorch ships for).  A cell that was never written
    reads as 0. *)
Record Heap : Type := {
  cells : gmap Z Z;
  brk : Z                 (* first address not handed out yet *)
}.

Definition load32 (h : Heap) (a : Z) : Z := default 0 (cells h !! a).

Definition store32 (a v : Z) (h : Heap) : Heap :=
  {| cells := <[a := v]> (cells h); brk := brk h |}.

Definition load_ptr (h : Heap) (a : Z) : Z :=
  Z.lor (load32 h a) (Z.shiftl (load32 h (a + 4)) 32).

Definition store_ptr (a p : Z) (h : Heap) : Heap :=
  store32 (a + 4) (Z.shiftr p 32) (store32 a (Z.land p (Z.ones 32)) h).

(** A fresh block of [bytes] bytes, 16-byte aligned. *)
Definition malloc (bytes : Z) (h : Heap) : Z * Heap :=
  let base := 16 * ((brk h + 15) / 16) in
  (base, {| cells := cells h; brk := base + bytes |}).

(** [std::copy(src, src + n, dest)] with the [n] source floats given. *)
Fixpoint std_copy (src : list Z) (dest : Z) (h : Heap) : Heap :=
  match src with
  | [] => h
  | v :: rest => std_copy rest (dest + 4) (store32 dest v h)
  end.

(** The fields of a [juce::AudioBuffer<float>].  [channels] is the
    [float**] member: the address of a table holding one pointer per channel
    (and a terminating null), each pointing at that channel's samples. *)
Record AudioBuffer : Type := {
  numChannels : Z;
  size : Z;
  channels : Z
}.

Definition getNumChannels (b : AudioBuffer) : Z := numChannels b.
Definition getNumSamples (b : AudioBuffer) : Z := size b.

(** "Returns an array of pointers to the channels in the buffer." *)
Definition getArrayOfReadPointers (b : AudioBuffer) : Z := channels b.

(** [channels[i]] *)
Definition getReadPointer (h : Heap) (b : AudioBuffer) (i : Z) : Z :=
  load_ptr h (channels b + 8 * i).
Definition getWritePointer (h : Heap) (b : AudioBuffer) (i : Z) : Z :=
  load_ptr h (channels b + 8 * i).

(** [b.getSample(i, j)], as a bit pattern. *)
Definition getSample (h : Heap) (b : AudioBuffer) (i j : Z) : Z :=
  load32 h (getReadPointer h b i + 4 * j).

(** The channel table of a block at [base]: channel [i] starts
    [perChannel] floats after channel [i - 1]; a null pointer ends it. *)
Definition write_channel_table (base listSize perChannel n : Z) (h : Heap) : Heap :=
  store_ptr (base + 8 * n) 0
    (foldr (fun i => store_ptr (base + 8 * i) (base + listSize + 4 * perChannel * i))
           h (seqZ 0 n)).

(** [AudioBuffer (int numChannelsToAllocate, int numSamplesToAllocate)]
    (allocateData): table of [n + 1] pointers, then the channels back to
    back. *)
Definition AudioBuffer_new (c n : Z) (h : Heap) : AudioBuffer * Heap :=
  let listSize := (c + 1) * 8 in
  let '(base, h1) := malloc (c * n * 4 + listSize + 32) h in
  ({| numChannels := c; size := n; channels := base |},
   write_channel_table base listSize n c h1).

(** [setSize (newNumChannels, newNumSamples)] with the default flags:
    nothing happens when the shape is already right; otherwise a fresh
    block is allocated (old content is not kept), with the table rounded
    up to 16 bytes and each channel to a multiple of 4 samples.  The
    [jassert] on negative arguments is modelled as checked. *)
Definition setSize (newNumChannels newNumSamples : Z) (b : AudioBuffer) (h : Heap)
  : outcome unit * (AudioBuffer * Heap) :=
  if decide (newNumChannels < 0 ∨ newNumSamples < 0) then (Fatal AssertionFailure, (b, h))
  else if decide (newNumSamples ≠ size b ∨ newNumChannels ≠ numChannels b) then
    let perChannel := 4 * ((newNumSamples + 3) / 4) in
    let listSize := 16 * (((1 + newNumChannels) * 8 + 15) / 16) in
    let '(base, h1) := malloc (newNumChannels * perChannel * 4 + listSize + 32) h in
    (Normal tt,
     ({| numChannels := newNumChannels; size := newNumSamples; channels := base |},
      write_channel_table base listSize perChannel newNumChannels h1))
  else (Normal tt, (b, h)).

(** ** The model handle *)

Record ModelCard : Type := {
  name : string;
  description : string;
  author : string;
  sampleRate : Z;
  tags : list string
}.

(** The members of [TorchModel].  [m_mutex] is [true] while a
    [std::lock_guard] holds the mutex. *)
Record TorchModel : Type := {
  m_model : option ScriptModule;
  m_loaded : bool;
  m_card : ModelCard;
  m_mutex : bool
}.

(** What leaves the handle during a call, oldest first. *)
Inductive Event : Type :=
| Cout (line : string)
| Cerr (line : string)
| ChangeMessage (card_then : ModelCard)     (* sendChangeMessage() *)
| ModelCardLoaded (card_then : ModelCard)   (* broadcastModelCardLoaded() *)
| Called (method : string) (args : list IValue).

(** The state a call runs in: the handle, what it has emitted so far, the
    memory, and the [AudioBuffer] objects (a pointer to one is its key). *)
Record World : Type := {
  self : TorchModel;
  trace : list Event;
  heap : Heap;
  buffers : gmap nat AudioBuffer
}.

Definition with_self (f : TorchModel -> TorchModel) (w : World) : World :=
  {| self := f (self w); trace := trace w; heap := heap w; buffers := buffers w |}.
Definition emit (e : Event) : M World unit :=
  modify (fun w =>
    {| self := self w; trace := trace w ++ [e]; heap := heap w; buffers := buffers w |}).

Definition set_m_model (m : option ScriptModule) (t : TorchModel) : TorchModel :=
  {| m_model := m; m_loaded := m_loaded t; m_card := m_card t; m_mutex := m_mutex t |}.
Definition set_m_loaded (b : bool) (t : TorchModel) : TorchModel :=
  {| m_model := m_model t; m_loaded := b; m_card := m_card t; m_mutex := m_mutex t |}.
Definition set_m_card (c : ModelCard) (t : TorchModel) : TorchModel :=
  {| m_model := m_model t; m_loaded := m_loaded t; m_card := c; m_mutex := m_mutex t |}.
Definition set_m_mutex (b : bool) (t : TorchModel) : TorchModel :=
  {| m_model := m_model t; m_loaded := m_loaded t; m_card := m_card t; m_mutex := b |}.

Definition set_name (s : string) (c : ModelCard) : ModelCard :=
  {| name := s; description := description c; author := author c;
     sampleRate := sampleRate c; tags := tags c |}.
Definition set_description (s : string) (c : ModelCard) : ModelCard :=
  {| name := name c; description := s; author := author c;
     sampleRate := sampleRate c; tags := tags c |}.
Definition set_author (s : string) (c : ModelCard) : ModelCard :=
  {| name := name c; description := description c; author := s;
     sampleRate := sampleRate c; tags := tags c |}.
Definition set_sampleRate (r : Z) (c : ModelCard) : ModelCard :=
  {| name := name c; description := description c; author := author c;
     sampleRate := r; tags := tags c |}.
Definition set_tags (l : list string) (c : ModelCard) : ModelCard :=
  {| name := name c; description := description c; author := author c;
     sampleRate := sampleRate c; tags := l |}.
(** [m_card.tags.push_back(s)] *)
Definition tags_push_back (s : string) (c : ModelCard) : ModelCard :=
  set_tags (tags c ++ [s]) c.

(** [m_card.field = ...] *)
Definition update_card (f : ModelCard -> ModelCard) : M World unit :=
  modify (with_self (fun t => set_m_card (f (m_card t)) t)).

(** [std::lock_guard<std::mutex> lock(m_mutex)] around the rest of the
    function body: the mutex is taken, and given back when the body returns
    or throws.  After a fault there is no unwinding.  Locking a mutex that
    is already held by the calling thread never returns. *)
Definition lock_guard {A} (body : M World A) : M World A :=
  fun w =>
    if m_mutex (self w) then (Fatal Deadlock, w)
    else
      match body (with_self (set_m_mutex true) w) with
      | (Fatal f, w') => (Fatal f, w')
      | (r, w') => (r, with_self (set_m_mutex false) w')
      end.

Definition gets {A} (f : World -> A) : M World A := fun w => (Normal (f w), w).

(** [m_model->...]: [m_model] is a [unique_ptr], null until a graph is
    stored. *)
Definition with_m_model {A} (f : ScriptModule -> outcome A) : M World A :=
  fun w =>
    match m_model (self w) with
    | Some m => (f m, w)
    | None => (Fatal NullDereference, w)
    end.

(** [*bufferToProcess] *)
Definition deref (p : nat) : M World AudioBuffer :=
  fun w =>
    match buffers w !! p with
    | Some b => (Normal b, w)
    | None => (Fatal NullDereference, w)
    end.

Definition set_heap (h : Heap) : M World unit :=
  modify (fun w => {| self := self w; trace := trace w; heap := h; buffers := buffers w |}).

(** [m_model->get_method(name)(args)]: null check, method lookup, call.
    The [Called] event is bookkeeping of this model, so that theorems can
    speak of the arguments a graph method received. *)
Definition invoke (name : string) (args : list IValue) : M World IValue :=
  m <- with_m_model Normal ;;
  match methods m !! name with
  | Some f => emit (Called name args) ;; lift (f args)
  | None => throw (C10Error ("Method '" +:+ name +:+ "' is not defined."))
  end.

(** [std::map::at] *)
Definition map_at {V} (m : gmap string V) (key : string) : outcome V :=
  match m !! key with
  | Some v => Normal v
  | None => Thrown (StdException "map::at")
  end.

(** [c10::Dict::insert]: inserts unless the key is already there. *)
Definition dict_insert {V} (key : string) (v : V) (d : gmap string V) : gmap string V :=
  match d !! key with
  | Some _ => d
  | None => <[key := v]> d
  end.

(** Modelled from the spec: [modelparams::contains] is declared in
    TorchModel.h, which is not among the sources; the design document
    speaks of the "absence of this key", so it is key membership. *)
Definition contains {V} (params : gmap string V) (key : string) : bool :=
  bool_decide (is_Some (params !! key)).

(** [sendChangeMessage()] of [juce::ChangeBroadcaster]: posts a change
    message for the listeners registered with [addListener]
    (= [addChangeListener]); they are called back later, from the message
    thread.  The event records the card as it is when the message is
    sent. *)
Definition sendChangeMessage : M World unit :=
  c <- gets (fun w => m_card (self w)) ;; emit (ChangeMessage c).

(** Modelled from the spec: [broadcastModelCardLoaded] is declared in
    TorchModel.h, which is not among the sources; it is the "model-loaded"
    notification, delivered synchronously to the observers, who see the
    card as it is at the call. *)
Definition broadcastModelCardLoaded : M World unit :=
  c <- gets (fun w => m_card (self w)) ;; emit (ModelCardLoaded c).

Module TorchModel.

(** [TorchModel::TorchModel() : m_model{nullptr}, m_loaded{false} {}] *)
Definition new : TorchModel :=
  {| m_model := None; m_loaded := false;
     m_card := {| name := ""; description := ""; author := "";
                  sampleRate := 0; tags := [] |};
     m_mutex := false |}.

(** The statements of the [try] block of [load] that populate the card. *)
Definition populate_card (pycard : gmap string IValue) : M World unit :=
  (v <- lift (getAttr pycard "name") ;; s <- lift (toStringRef v) ;;
   update_card (set_name s)) ;;
  (v <- lift (getAttr pycard "description") ;; s <- lift (toStringRef v) ;;
   update_card (set_description s)) ;;
  (v <- lift (getAttr pycard "author") ;; s <- lift (toStringRef v) ;;
   update_card (set_author s)) ;;
  (v <- lift (getAttr pycard "sample_rate") ;; r <- lift (toInt v) ;;
   update_card (set_sampleRate r)) ;;
  v <- lift (getAttr pycard "tags") ;; l <- lift (toListRef v) ;;
  for_each l (fun tag => s <- lift (toStringRef tag) ;; update_card (tags_push_back s)).

(** [bool TorchModel::load(const map<string, any> &params)] *)
Definition load (T : Torch) (params : gmap string any) : M World bool :=
  emit (Cout "Loading model") ;;
  lock_guard
    (if negb (contains params "modelPath") then ret false
     else
       a <- lift (map_at params "modelPath") ;;
       modelPath <- lift (any_cast_string a) ;;
       try_catch_cstr
         (m <- lift (jit_load T modelPath) ;;
          modify (with_self (set_m_model (Some m))) ;;
          m' <- with_m_model (fun m => Normal (eval m)) ;;
          modify (with_self (set_m_model (Some m'))) ;;
          modify (with_self (set_m_loaded true)) ;;
          sendChangeMessage ;;
          card <- with_m_model (fun m => getAttr (attributes m) "model_card") ;;
          pycard <- lift (toObject card) ;;
          populate_card pycard ;;
          broadcastModelCardLoaded ;;
          ret true)
         (fun e =>
            emit (Cerr "Error loading the model") ;;
            emit (Cerr e) ;;
            ret false)).

(** [bool TorchModel::ready() const] *)
Definition ready (t : TorchModel) : bool := m_loaded t.

(** [IValue TorchModel::forward(const std::vector<IValue> &inputs) const]:
    [m_model->forward(inputs)] runs the graph's method "forward". *)
Definition forward (inputs : list IValue) : M World IValue :=
  invoke "forward" inputs.

(** [torch::from_blob(data, sizes, kFloat32)] followed by [clone()]: the
    [numel] floats found in memory from [data] on, row-major. *)
Definition numel (sizes : list Z) : Z := foldr Z.mul 1 sizes.

Definition from_blob (h : Heap) (data : Z) (sizes : list Z) : Tensor :=
  Dense kFloat sizes ((fun k => load32 h (data + 4 * k)) <$> seqZ 0 (numel sizes)).

(** [torch::Tensor TorchModel::to_tensor(const juce::AudioBuffer<float> &buffer)].
    The address handed to [from_blob] is
    [(void * )buffer.getArrayOfReadPointers()]: that of the table of channel
    pointers, not that of the samples. *)
Definition to_tensor (h : Heap) (buffer : AudioBuffer) : Tensor :=
  from_blob h (getArrayOfReadPointers buffer)
            [getNumChannels buffer; getNumSamples buffer].

(** [t.size(d)] *)
Definition tensor_size (t : Tensor) (d : nat) : outcome Z :=
  match tensor_sizes t !! d with
  | Some n => Normal n
  | None => Thrown (C10Error "Dimension out of range")
  end.

(** [src_tensor[i].data_ptr<float>()]: the floats stored from the start of
    row [i] on.  Indexing checks the range, [data_ptr<float>] the element
    type. *)
Definition row_data_ptr_float (t : Tensor) (i : Z) : outcome (list Z) :=
  match t with
  | Dense dt (d0 :: rest) data =>
      if decide (0 <= i < d0) then
        match dt with
        | kFloat => Normal (drop (Z.to_nat (i * numel rest)) data)
        | _ => Thrown (C10Error "expected scalar type Float")
        end
      else Thrown (C10Error "index out of range")
  | Dense _ [] _ => Thrown (C10Error "invalid index of a 0-dim tensor")
  | torch_tensor vals =>
      if decide (0 <= i < Z.of_nat (length vals))
      then Thrown (C10Error "expected scalar type Float")
      else Thrown (C10Error "index out of range")
  end.

(** [dest_buffer.setSize(c, n)] on the object behind the reference. *)
Definition buffer_setSize (dest : nat) (c n : Z) : M World unit :=
  b <- deref dest ;;
  fun w =>
    let '(r, (b', h')) := setSize c n b (heap w) in
    (r, {| self := self w; trace := trace w; heap := h';
           buffers := <[dest := b']> (buffers w) |}).

(** The body of the [for] loop of [to_buffer], for channel [i]. *)
Definition copy_channel (src_tensor : Tensor) (dest_buffer : nat) (i : Z) : M World unit :=
  b <- deref dest_buffer ;;
  h <- gets heap ;;
  let dest_ptr := getWritePointer h b i in
  src_ptr <- lift (row_data_ptr_float src_tensor i) ;;
  set_heap (std_copy (take (Z.to_nat (getNumSamples b)) src_ptr) dest_ptr h).

(** [bool TorchModel::to_buffer(const torch::Tensor &src_tensor,
                                juce::AudioBuffer<float> &dest_buffer)].
    [assert] is the checked one (NDEBUG not defined). *)
Definition to_buffer (src_tensor : Tensor) (dest_buffer : nat) : M World bool :=
  if negb (dim src_tensor =? 2) then crash AssertionFailure
  else
    s0 <- lift (tensor_size src_tensor 0) ;;
    s1 <- lift (tensor_size src_tensor 1) ;;
    buffer_setSize dest_buffer (to_int s0) (to_int s1) ;;
    b <- deref dest_buffer ;;
    for_each (seqZ 0 (getNumChannels b)) (copy_channel src_tensor dest_buffer) ;;
    ret true.

End TorchModel.

Module TorchWave2Wave.

(** One turn of the loop over [params] in [process].  [parameters] is the
    [c10::Dict<string, torch::Tensor>], [parameters2] the
    [c10::Dict<string, IValue>]. *)
Definition marshal_entry (key : string) (value : any)
    (dicts : gmap string Tensor * gmap string IValue)
  : gmap string Tensor * gmap string IValue :=
  let '(parameters, parameters2) := dicts in
  let '(valueAsDouble, parameters2) :=
    match value with
    | AnyInt i =>
        let valueAsDouble := double_of_int i in
        (valueAsDouble, dict_insert key (IVTensor (torch_tensor [valueAsDouble])) parameters2)
    | AnyFloat f =>
        let valueAsDouble := double_of_float f in
        (valueAsDouble, dict_insert key (IVTensor (torch_tensor [valueAsDouble])) parameters2)
    | AnyDouble d =>
        let valueAsDouble := d in
        (valueAsDouble, dict_insert key (IVTensor (torch_tensor [valueAsDouble])) parameters2)
    | AnyBool b =>
        let valueAsDouble := double_of_bool b in
        (valueAsDouble, dict_insert key (IVTensor (torch_tensor [valueAsDouble])) parameters2)
    | AnyString s =>
        (S754_zero false, dict_insert key (IVString s) parameters2)
    | AnyOther _ =>
        (S754_zero false, parameters2)
    end in
  (dict_insert key (torch_tensor [valueAsDouble]) parameters, parameters2).

(** [for (const auto& pair : params) { ... }], from two empty dicts. *)
Definition marshal (params : gmap string any)
  : gmap string Tensor * gmap string IValue :=
  map_fold marshal_entry (∅, ∅) params.

(** [void TorchWave2Wave::process(juce::AudioBuffer<float> *bufferToProcess,
       int sampleRate, std::map<string, any> &params) const] *)
Definition process (T : Torch) (bufferToProcess : nat) (sampleRate : Z)
    (params : gmap string any) : M World unit :=
  lock_guard
    (b <- deref bufferToProcess ;;
     h <- gets heap ;;
     let input := IVTensor (mean_dim0_keepdim T (TorchModel.to_tensor h b)) in
     let '(parameters, parameters2) := marshal params in
     try_catch_cstr
       (r <- invoke "resample" [input; IVInt sampleRate] ;;
        resampled <- lift (toTensor r) ;;
        o <- TorchModel.forward [IVTensor resampled; IVTensorDict parameters] ;;
        output <- lift (toTensor o) ;;
        TorchModel.to_buffer output bufferToProcess ;;
        ret tt)
       (fun msg =>
          emit (Cerr ("Error processing audio: " +:+ msg)) ;;
          ret tt)).

End TorchWave2Wave.

(** ** The earlier variant of the wrapper (src/unnamed/part_000)

    [to_tensor], [to_buffer], [ready] and [forward] are the same text as in
    TorchModel.cpp; [process] differs before its [try] block. *)

(** [any_cast<double>(a)] *)
Definition any_cast_double (a : any) : outcome double :=
  match a with
  | AnyDouble d => Normal d
  | _ => Thrown BadAnyCast
  end.

Module Earlier.

(** [void TorchWave2Wave::process(juce::AudioBuffer<float> *bufferToProcess,
       int sampleRate, std::map<string, any> &params) const]: one hard-coded
    parameter, "gain", taken from [params.at("A")]; the model card is
    fetched before the [try]. *)
Definition process (T : Torch) (bufferToProcess : nat) (sampleRate : Z)
    (params : gmap string any) : M World unit :=
  lock_guard
    (b <- deref bufferToProcess ;;
     h <- gets heap ;;
     let input := IVTensor (mean_dim0_keepdim T (TorchModel.to_tensor h b)) in
     a <- lift (map_at params "A") ;;
     gain <- lift (any_cast_double a) ;;
     let parameters := dict_insert "gain" (torch_tensor [gain]) ∅ in
     card <- with_m_model (fun m => getAttr (attributes m) "model_card") ;;
     lift (toObject card) ;;
     try_catch_cstr
       (r <- invoke "resample" [input; IVInt sampleRate] ;;
        resampled <- lift (toTensor r) ;;
        o <- TorchModel.forward [IVTensor resampled; IVTensorDict parameters] ;;
        output <- lift (toTensor o) ;;
        TorchModel.to_buffer output bufferToProcess ;;
        ret tt)
       (fun msg =>
          emit (Cerr ("Error processing audio: " +:+ msg)) ;;
          ret tt)).

End Earlier.

(** ** The caller: Source/ARA/AudioModification.cpp *)

(** What [process] uses of the [juce::ARAAudioSourceReader]. *)
Record AudioSourceReader : Type := {
  isValid : bool;
  reader_numChannels : Z;
  lengthInSamples : Z;
  (* read (buffer, 0, n, 0, true, true): fills the channels of the buffer *)
  read : AudioBuffer -> Z -> Heap -> Heap
}.

(** The members of [AudioModification] that [process] touches.  [mModel]
    is a [shared_ptr] to the handle, which lives in the [World];
    [mAudioBuffer] is a [unique_ptr] to a buffer object. *)
Record AudioModification : Type := {
  mAudioSourceReader : AudioSourceReader;
  mSampleRate : Z;
  mAudioBuffer : option nat;
  mIsModified : bool
}.

Record Session : Type := {
  am : AudioModification;
  world : World
}.

(** Run a call on the handle inside the session. *)
Definition on_world {A} (m : M World A) : M Session A :=
  fun s =>
    let '(r, w') := m (world s) in
    (r, {| am := am s; world := w' |}).

Module AudioModification.

(** [mAudioBuffer.reset(new juce::AudioBuffer<float>(c, n))]: the old
    object, if any, is destroyed and a new one takes its place. *)
Definition reset_mAudioBuffer (c n : Z) : M Session unit :=
  modify (fun s =>
    let w := world s in
    let kept := match mAudioBuffer (am s) with
                | Some old => delete old (buffers w)
                | None => buffers w
                end in
    let p := fresh (dom (buffers w)) in
    let '(b, h) := AudioBuffer_new c n (heap w) in
    {| am := {| mAudioSourceReader := mAudioSourceReader (am s);
                mSampleRate := mSampleRate (am s);
                mAudioBuffer := Some p;
                mIsModified := mIsModified (am s) |};
       world := {| self := self w; trace := trace w; heap := h;
                   buffers := <[p := b]> kept |} |}).

Definition set_mIsModified (v : bool) : M Session unit :=
  modify (fun s =>
    {| am := {| mAudioSourceReader := mAudioSourceReader (am s);
                mSampleRate := mSampleRate (am s);
                mAudioBuffer := mAudioBuffer (am s);
                mIsModified := v |};
       world := world s |}).

(** [mAudioBuffer.get()] *)
Definition mAudioBuffer_get : M Session nat :=
  fun s =>
    match mAudioBuffer (am s) with
    | Some p => (Normal p, s)
    | None => (Fatal NullDereference, s)
    end.

(** [void AudioModification::process(std::map<std::string, std::any> &params)] *)
Definition process (T : Torch) (params : gmap string any) : M Session unit :=
  s <- get ;;
  if negb (TorchModel.ready (self (world s))) then ret tt
  else
    let reader := mAudioSourceReader (am s) in
    if negb (isValid reader) then ret tt
    else
      let numChannels := reader_numChannels reader in
      let numSamples := lengthInSamples reader in
      let sampleRate := mSampleRate (am s) in
      reset_mAudioBuffer (to_int numChannels) (to_int numSamples) ;;
      p <- mAudioBuffer_get ;;
      on_world (b <- deref p ;;
                h <- gets heap ;;
                set_heap (read reader b (to_int numSamples) h)) ;;
      on_world (TorchWave2Wave.process T p sampleRate params) ;;
      set_mIsModified true.

End AudioModification.

(** ** A concrete graph and session, for the examples below *)

Definition demo_card : gmap string IValue :=
  list_to_map
    [("name", IVString "demo"); ("description", IVString "a demo model");
     ("author", IVString "harp"); ("sample_rate", IVInt 22050);
     ("tags", IVList [IVString "gain"; IVString "mono"])].

(** A method that returns its first argument. *)
Definition first_arg (args : list IValue) : outcome IValue :=
  match args with
  | x :: _ => Normal x
  | [] => Thrown (C10Error "expected at least one argument")
  end.

Definition demo_graph : ScriptModule :=
  {| attributes := {[ "model_card" := IVObject demo_card ]};
     methods := list_to_map [("resample", first_arg); ("forward", first_arg)];
     training := true |}.

(** A graph without a model card, and one whose resampler fails the way
    libtorch fails. *)
Definition cardless_graph : ScriptModule :=
  {| attributes := ∅;
     methods := list_to_map [("resample", first_arg); ("forward", first_arg)];
     training := true |}.

Definition failing_graph : ScriptModule :=
  {| attributes := {[ "model_card" := IVObject demo_card ]};
     methods := list_to_map
       [("resample", fun _ => Thrown (C10Error "resample: shape mismatch"));
        ("forward", first_arg)];
     training := true |}.

(** A graph whose "forward" returns a tensor of rank 1. *)
Definition flat_graph : ScriptModule :=
  {| attributes := {[ "model_card" := IVObject demo_card ]};
     methods := list_to_map
       [("resample", first_arg);
        ("forward", fun _ => Normal (IVTensor (torch_tensor [S754_zero false])))];
     training := true |}.

(** Four files on disk; every other path fails to open.  On a
    one-channel tensor the mean over the channels is the tensor itself. *)
Definition demo_torch : Torch :=
  {| jit_load := fun path =>
       if String.eqb path "valid.model" then Normal demo_graph
       else if String.eqb path "cardless.model" then Normal cardless_graph
       else if String.eqb path "failing.model" then Normal failing_graph
       else if String.eqb path "flat.model" then Normal flat_graph
       else Thrown (C10Error "open file failed");
     mean_dim0_keepdim := fun t => t |}.

Definition empty_heap : Heap := {| cells := ∅; brk := 4096 |}.

(** A one-channel, one-sample buffer holding 1.0f (0x3F800000). *)
Definition one_sample_buffer : AudioBuffer * Heap :=
  let '(b, h) := AudioBuffer_new 1 1 empty_heap in
  (b, store32 (getWritePointer h b 0) 1065353216 h).

(** A new handle, and the caller's buffer as object 0. *)
Definition fresh_world : World :=
  {| self := TorchModel.new; trace := [];
     heap := snd one_sample_buffer;
     buffers := {[ 0%nat := fst one_sample_buffer ]} |}.

Definition valid_params : gmap string any := {[ "modelPath" := AnyString "valid.model" ]}.

(** The world after [load] of "valid.model", "failing.model", "flat.model". *)
Definition loaded_world : World := snd (TorchModel.load demo_torch valid_params fresh_world).
Definition failing_world : World :=
  snd (TorchModel.load demo_torch {[ "modelPath" := AnyString "failing.model" ]} fresh_world).
Definition flat_world : World :=
  snd (TorchModel.load demo_torch {[ "modelPath" := AnyString "flat.model" ]} fresh_world).

(** ** Properties *)

(** The events of a trace that notify observers, with the card shown. *)
Definition notification (e : Event) : option ModelCard :=
  match e with
  | ChangeMessage c => Some c
  | ModelCardLoaded c => Some c
  | _ => None
  end.

(** Every field of [c] holds what the graph's card object declares; the
    tags were appended to [old_tags]. *)
Definition card_read_from (pycard : gmap string IValue) (old_tags : list string)
    (c : ModelCard) : Prop :=
  pycard !! "name" = Some (IVString (name c)) ∧
  pycard !! "description" = Some (IVString (description c)) ∧
  pycard !! "author" = Some (IVString (author c)) ∧
  pycard !! "sample_rate" = Some (IVInt (sampleRate c)) ∧
  ∃ tl, pycard !! "tags" = Some (IVList (IVString <$> tl)) ∧ tags c = (old_tags ++ tl)%list.

(** The members of the handle that [load] is there to set. *)
Definition same_handle (t t' : TorchModel) : Prop :=
  m_model t' = m_model t ∧ m_loaded t' = m_loaded t ∧ m_card t' = m_card t.

(** The double that the loop of [process] leaves in [valueAsDouble]. *)
Definition valueAsDouble (v : any) : double :=
  match v with
  | AnyInt i => double_of_int i
  | AnyFloat f => double_of_float f
  | AnyDouble d => d
  | AnyBool b => double_of_bool b
  | AnyString _ => S754_zero false
  | AnyOther _ => S754_zero false
  end.

(** What the loop leaves in [parameters2] for a value. *)
Definition in_parameters2 (v : any) : option IValue :=
  match v with
  | AnyString s => Some (IVString s)
  | AnyOther _ => None
  | _ => Some (IVTensor (torch_tensor [valueAsDouble v]))
  end.

(** [keeps R m]: on every outcome, [m] leaves a state related by [R] to the
    one it started in. *)
Definition keeps {S A} (R : relation S) (m : M S A) : Prop :=
  ∀ s r s', m s = (r, s') -> R s s'.

(** The trace grew by events that all satisfy [P]. *)
Definition extends_trace (P : Event -> Prop) (w w' : World) : Prop :=
  ∃ evs, trace w' = (trace w ++ evs)%list ∧ Forall P evs.

(** Graph and loaded-flag are the same. *)
Definition same_graph (w w' : World) : Prop :=
  m_model (self w') = m_model (self w) ∧ m_loaded (self w') = m_loaded (self w).

(** Graph, loaded-flag and card are the same. *)
Definition handle_kept (w w' : World) : Prop := same_handle (self w) (self w').

(** Graph and loaded-flag are kept, the trace only grows. *)
Definition graph_kept (w w' : World) : Prop :=
  same_graph w w' ∧ extends_trace (fun _ => True) w w'.

(** The arguments a call of the graph's "forward" must have, given the
    dictionary [d]. *)
Definition forward_gets (d : gmap string Tensor) (e : Event) : Prop :=
  ∀ args, e = Called "forward" args ->
          ∃ resampled, args = [IVTensor resampled; IVTensorDict d].

(** [P i] is where channel [i] of [b] starts; the channels overlap neither
    each other nor the channel table. *)
Definition laid_out (h : Heap) (b : AudioBuffer) (P : Z -> Z) : Prop :=
  (∀ i, 0 <= i < numChannels b -> getReadPointer h b i = P i) ∧
  (∀ i j k, 0 <= i < numChannels b -> 0 <= j < size b -> 0 <= k < numChannels b ->
            P i + 4 * j ≠ channels b + 8 * k ∧ P i + 4 * j ≠ channels b + 8 * k + 4) ∧
  (∀ i i' j j', 0 <= i < numChannels b -> 0 <= i' < numChannels b ->
                0 <= j < size b -> 0 <= j' < size b ->
                P i + 4 * j = P i' + 4 * j' -> i = i').

Definition with_heap (h : Heap) (w : World) : World :=
  {| self := self w; trace := trace w; heap := h; buffers := buffers w |}.

(** More concrete inputs. *)
Definition cardless_params : gmap string any :=
  {[ "modelPath" := AnyString "cardless.model" ]}.
Definition missing_params : gmap string any :=
  {[ "modelPath" := AnyString "missing.model" ]}.
Definition unsupported_params : gmap string any := {[ "mode" := AnyOther "long" ]}.
(** 0.5 *)
Definition gain_params : gmap string any :=
  {[ "gain" := AnyDouble (S754_finite false 4503599627370496 (-53)) ]}.

(** A session whose handle is new. *)
Definition fresh_session : Session :=
  {| am := {| mAudioSourceReader :=
                {| isValid := true; reader_numChannels := 1; lengthInSamples := 1;
                   read := fun b n h => h |};
              mSampleRate := 44100; mAudioBuffer := None; mIsModified := false |};
     world := fresh_world |}.

(** The round trip of the codec on the one-sample buffer, into a
    destination (object 1) that starts with two channels of three samples. *)
Definition round_trip_world : World :=
  let '(b', h) := AudioBuffer_new 2 3 (heap fresh_world) in
  {| self := TorchModel.new; trace := []; heap := h;
     buffers := <[1%nat := b']> (buffers fresh_world) |}.

Definition round_trip : outcome bool * World :=
  TorchModel.to_buffer
    (TorchModel.to_tensor (heap round_trip_world) (fst one_sample_buffer))
    1%nat round_trip_world.

(** A tensor of rank 3. *)
Definition rank3_tensor : Tensor := Dense kFloat [1; 1; 1] [0].

(** ** The rest of TorchModel.cpp: the shape printer *)

(** [size.size() - 1]: [size_t] arithmetic, unsigned on 64 bits. *)
Definition size_t_pred (n : Z) : Z := (n - 1) mod 2 ^ 64.

(** [std::string size2string(torch::IntArrayRef size)]: [ss] is the stream,
    [pretty] the decimal form that [ss << size[i]] writes. *)
Definition size2string (size : list Z) : string :=
  let n := Z.of_nat (length size) in
  foldl (fun ss i =>
           let ss := ss +:+ pretty (size !!! Z.to_nat i) in
           if decide (i < size_t_pred n) then ss +:+ ", " else ss)
        "(" (seqZ 0 n)
  +:+ ")".

(** ** The rest of the earlier variant (src/unnamed/part_000): [load] *)

(** [try { body } catch (const c10::Error &e) { handler(e.what()) }] *)
Definition try_catch_c10 {S A} (body : M S A) (handler : string -> M S A) : M S A :=
  fun s =>
    match body s with
    | (Thrown (C10Error what), s') => handler what s'
    | r => r
    end.

(** Calling a [std::function<void(std::string)>]: an empty one throws
    [std::bad_function_call]; a set one runs the caller's code, here and
    now, in the state the call is made in. *)
Definition call_function (f : option (string -> M World unit)) (arg : string)
  : M World unit :=
  match f with
  | Some g => g arg
  | None => throw (StdException "bad_function_call")
  end.

Module EarlierTorchModel.

(** [bool TorchModel::load(const map<string, any> &params)] of the earlier
    variant.  The member [editorsWidgetCreationCallback], which
    [setTheCallbackFromAudioModification] sets, is the argument of that
    name: its value when [load] is called. *)
Definition load (T : Torch)
    (editorsWidgetCreationCallback : option (string -> M World unit))
    (params : gmap string any) : M World bool :=
  emit (Cout "Loading model") ;;
  lock_guard
    (if negb (contains params "modelPath") then ret false
     else
       a <- lift (map_at params "modelPath") ;;
       modelPath <- lift (any_cast_string a) ;;
       try_catch_c10
         (m <- lift (jit_load T modelPath) ;;
          modify (with_self (set_m_model (Some m))) ;;
          m' <- with_m_model (fun m => Normal (eval m)) ;;
          modify (with_self (set_m_model (Some m'))) ;;
          modify (with_self (set_m_loaded true)) ;;
          call_function editorsWidgetCreationCallback "skata" ;;
          ret true)
         (fun what =>
            emit (Cerr "Error loading the model") ;;
            emit (Cerr what) ;;
            ret false)).

End EarlierTorchModel.

(** ** The rest of AudioModification.cpp *)

(** [void AudioModification::load(std::map<std::string, std::any> &params)]:
    [mModel->load(params)], the result dropped. *)
Definition AudioModification_load (T : Torch) (params : gmap string any) : M Session unit :=
  on_world (TorchModel.load T params) ;; ret tt.

(** [juce::AudioBuffer<float> *AudioModification::getModifiedAudioBuffer()] *)
Definition getModifiedAudioBuffer (a : AudioModification) : option nat := mAudioBuffer a.

(** [bool AudioModification::getIsModified()] *)
Definition getIsModified (a : AudioModification) : bool := mIsModified a.

(** The buffer objects that exist are the same. *)
Definition same_objects (w w' : World) : Prop := dom (buffers w') = dom (buffers w).





(** Quiet events: not notifications. *)
Definition quiet (e : Event) : Prop := notification e = None.

(** A graph whose card declares a name and nothing else, and a libtorch
    that finds it under every path. *)
Definition half_card_graph : ScriptModule :=
  {| attributes := {[ "model_card" := IVObject {[ "name" := IVString "half" ]} ]};
     methods := ∅; training := true |}.
Definition half_card_torch : Torch :=
  {| jit_load := fun _ => Normal half_card_graph; mean_dim0_keepdim := fun t => t |}.

(** A session that has processed before: its modified buffer is object 0. *)
Definition modified_session : Session :=
  {| am := {| mAudioSourceReader := mAudioSourceReader (am fresh_session);
              mSampleRate := 44100; mAudioBuffer := Some 0%nat; mIsModified := true |};
     world := failing_world |}.

(** A session on a loaded handle whose audio source reader is not valid. *)
Definition invalid_session : Session :=
  {| am := {| mAudioSourceReader :=
                {| isValid := false; reader_numChannels := 1; lengthInSamples := 1;
                   read := fun b n h => h |};
              mSampleRate := 44100; mAudioBuffer := None; mIsModified := false |};
     world := loaded_world |}.

(** A one-channel buffer of eight samples, as its constructor lays it out. *)
Definition mono_buffer : AudioBuffer * Heap := AudioBuffer_new 1 8 empty_heap.

(** ** src/pianoRoll/KeyboardComponent.cpp *)

Module KeyboardComponent.

(** [KeyboardComponent::KeyboardComponent ()]: the five [blackPitches.add]. *)
Definition blackPitches : list Z := [1; 3; 6; 8; 10].

(** The colour choice of one turn of the loop in [paint]:
    [blackPitches.contains(i % 12)], dark grey when true. *)
Definition is_dark (i : Z) : bool :=
  let pitch := Z.rem i 12 in
  bool_decide (pitch ∈ blackPitches).

(** [void KeyboardComponent::paint(Graphics& g)]: the rows in the order
    they are painted, [for (int i = 127; i >= 0; i--)], each with the number
    drawn on it and whether it is dark.  [line] starts at 0 and grows by one
    row height per turn, so this is the order from the top.  The pixel
    positions, which are [float] sums, are left out. *)
Definition paint : list (Z * bool) :=
  (fun i => (i, is_dark i)) <$> reverse (seqZ 0 128).

End KeyboardComponent.

(** ** Source/Timeline/PlaybackRegion.cpp *)

Module PlaybackRegionView.

(** What a callback of the view does to the outside. *)
Inductive Effect : Type :=
| ModificationContentChanged          (* audioModification->notifyContentChanged(...) *)
| RegionContentChanged (region : nat) (* region->notifyContentChanged(...) *)
| Repaint.                            (* repaint() *)

(** What the callbacks below read and write: the [dimmed] flag of the
    region's [AudioModification] (AudioModification.cpp, [isDimmed] and
    [setDimmed]), the regions of that modification, the region the view is
    for, the view's [isSelected], and the effects so far, oldest first. *)
Record State : Type := {
  dimmed : bool;
  playbackRegions : list nat;
  playbackRegion : nat;
  isSelected : bool;
  effects : list Effect
}.

(** [bool AudioModification::isDimmed() const] *)
Definition isDimmed (s : State) : bool := dimmed s.

(** [void AudioModification::setDimmed(bool shouldDim)] *)
Definition setDimmed (shouldDim : bool) (s : State) : State :=
  {| dimmed := shouldDim; playbackRegions := playbackRegions s;
     playbackRegion := playbackRegion s; isSelected := isSelected s;
     effects := effects s |}.

Definition perform (e : Effect) (s : State) : State :=
  {| dimmed := dimmed s; playbackRegions := playbackRegions s;
     playbackRegion := playbackRegion s; isSelected := isSelected s;
     effects := effects s ++ [e] |}.

Definition set_isSelected (v : bool) (s : State) : State :=
  {| dimmed := dimmed s; playbackRegions := playbackRegions s;
     playbackRegion := playbackRegion s; isSelected := v;
     effects := effects s |}.

(** [void PlaybackRegionView::mouseDoubleClick(const juce::MouseEvent &)] *)
Definition mouseDoubleClick (s : State) : State :=
  let s := setDimmed (negb (isDimmed s)) s in
  let s := perform ModificationContentChanged s in
  foldl (fun s region => perform (RegionContentChanged region) s) s (playbackRegions s).

(** [void PlaybackRegionView::onNewSelection(const ARAViewSelection &)],
    given [viewSelection.getPlaybackRegions()]. *)
Definition onNewSelection (selectedPlaybackRegions : list nat) (s : State) : State :=
  let selected := bool_decide (playbackRegion s ∈ selectedPlaybackRegions) in
  if bool_decide (selected ≠ isSelected s)
  then perform Repaint (set_isSelected selected s)
  else s.

End PlaybackRegionView.

(** A graph with a complete card and no methods, and a libtorch that finds
    it under every path. *)
Definition methodless_graph : ScriptModule :=
  {| attributes := {[ "model_card" := IVObject demo_card ]};
     methods := ∅; training := true |}.
Definition methodless_torch : Torch :=
  {| jit_load := fun _ => Normal methodless_graph; mean_dim0_keepdim := fun t => t |}.

(** *** Inversion of the monad's operations *)

Section Inversion.
Context {S A B : Type}.

Lemma bind_Normal_inv (m : M S A) (k : A -> M S B) s b s' :
  bind m k s = (Normal b, s') ->
  ∃ a s1, m s = (Normal a, s1) ∧ k a s1 = (Normal b, s').
Proof.
  unfold bind. destruct (m s) as [[a|e|f] s1]; intros H; try discriminate.
  eauto.
Qed.

Lemma bind_inv (m : M S A) (k : A -> M S B) s r s' :
  bind m k s = (r, s') ->
  (∃ a s1, m s = (Normal a, s1) ∧ k a s1 = (r, s')) ∨
  (∃ e, m s = (Thrown e, s') ∧ r = Thrown e) ∨
  (∃ f, m s = (Fatal f, s') ∧ r = Fatal f).
Proof.
  unfold bind. destruct (m s) as [[a|e|f] s1]; intros H.
  - left. eauto.
  - right. left. inversion H. eauto.
  - right. right. inversion H. eauto.
Qed.

Lemma lift_inv (o : outcome A) (s : S) r s' :
  lift o s = (r, s') -> r = o ∧ s' = s.
Proof. unfold lift. intros H. inversion H. auto. Qed.

Lemma try_catch_cstr_Normal_inv (body : M S A) handler s a s' :
  try_catch_cstr body handler s = (Normal a, s') ->
  body s = (Normal a, s') ∨
  ∃ msg s1, body s = (Thrown (CString msg), s1) ∧ handler msg s1 = (Normal a, s').
Proof.
  unfold try_catch_cstr. destruct (body s) as [[x|[msg| | |]|f] s1]; intros H;
    try discriminate; eauto.
Qed.
End Inversion.

Lemma lock_guard_Normal_inv {A} (body : M World A) w a w' :
  lock_guard body w = (Normal a, w') ->
  m_mutex (self w) = false ∧
  ∃ w1, body (with_self (set_m_mutex true) w) = (Normal a, w1) ∧
        w' = with_self (set_m_mutex false) w1.
Proof.
  unfold lock_guard. destruct (m_mutex (self w)); [discriminate|].
  destruct (body _) as [[x|e|f] w1]; intros H; inversion H; subst. eauto.
Qed.

Lemma run_eq {S A} (m : M S A) s r : fst (m s) = r -> m s = (r, snd (m s)).
Proof. intros <-. by destruct (m s). Qed.

(** *** Frame rules: what a computation keeps *)

Section Keeps.
Context {S : Type} (R : relation S) `{!PreOrder R}.

Lemma keeps_ret {A} (a : A) : keeps R (ret a).
Proof. by intros s r s' [= _ ->]. Qed.

Lemma keeps_throw {A} e : keeps R (@throw S A e).
Proof. by intros s r s' [= _ ->]. Qed.

Lemma keeps_crash {A} f : keeps R (@crash S A f).
Proof. by intros s r s' [= _ ->]. Qed.

Lemma keeps_lift {A} (o : outcome A) : keeps R (lift o).
Proof. by intros s r s' [= _ ->]. Qed.

Lemma keeps_modify (f : S -> S) : (∀ s, R s (f s)) -> keeps R (modify f).
Proof. intros H s r s' [= _ <-]. apply H. Qed.

Lemma keeps_bind {A B} (m : M S A) (k : A -> M S B) :
  keeps R m -> (∀ a, keeps R (k a)) -> keeps R (bind m k).
Proof.
  intros Hm Hk s r s' H.
  apply bind_inv in H as [(a & s1 & H1 & H2)|[(e & H1 & _)|(f & H1 & _)]];
    [|by eapply Hm..].
  transitivity s1; [by eapply Hm|by eapply Hk].
Qed.

Lemma keeps_try_catch_cstr {A} (body : M S A) handler :
  keeps R body -> (∀ msg, keeps R (handler msg)) ->
  keeps R (try_catch_cstr body handler).
Proof.
  intros Hb Hh s r s'. unfold try_catch_cstr.
  destruct (body s) as [[a|[msg| | |]|f] s1] eqn:H1; intros H;
    try (inversion H; subst; by eapply Hb).
  transitivity s1; [by eapply Hb|by eapply Hh].
Qed.

Lemma keeps_for_each {A} (xs : list A) (body : A -> M S unit) :
  (∀ x, keeps R (body x)) -> keeps R (for_each xs body).
Proof.
  intros Hb. induction xs as [|x xs IH]; cbn [for_each].
  - apply keeps_ret.
  - apply keeps_bind; [apply Hb|]. intros _. apply IH.
Qed.
End Keeps.

Global Instance extends_trace_preorder P : PreOrder (extends_trace P).
Proof.
  split.
  - intros w. exists []. by rewrite app_nil_r.
  - intros w1 w2 w3 (evs1 & E1 & F1) (evs2 & E2 & F2).
    exists (evs1 ++ evs2)%list. split.
    + by rewrite E2, E1, app_assoc.
    + by apply Forall_app.
Qed.

Global Instance same_graph_preorder : PreOrder same_graph.
Proof.
  split.
  - by intros w.
  - intros w1 w2 w3 [? ?] [? ?]. split; congruence.
Qed.

Global Instance handle_kept_preorder : PreOrder handle_kept.
Proof.
  split.
  - by intros w.
  - intros w1 w2 w3 (? & ? & ?) (? & ? & ?). repeat split; congruence.
Qed.

Global Instance graph_kept_preorder : PreOrder graph_kept.
Proof.
  split.
  - intros w. split; reflexivity.
  - intros w1 w2 w3 [? ?] [? ?]. split; etransitivity; eauto.
Qed.

Lemma extends_trace_same P w w' : trace w' = trace w -> extends_trace P w w'.
Proof. intros H. exists []. by rewrite app_nil_r. Qed.

(** Operations on the [World] that touch neither the trace nor the handle. *)
Section KeepsWorld.
Context (R : relation World) `{!PreOrder R}.
Context (R_quiet : ∀ w w', trace w' = trace w -> self w' = self w -> R w w').

Lemma keeps_gets {A} (f : World -> A) : keeps R (gets f).
Proof. by intros w r w' [= _ ->]. Qed.

Lemma keeps_deref p : keeps R (deref p).
Proof.
  intros w r w'. unfold deref. by destruct (buffers w !! p); intros [= _ ->].
Qed.

Lemma keeps_with_m_model {A} (f : ScriptModule -> outcome A) : keeps R (with_m_model f).
Proof.
  intros w r w'. unfold with_m_model. by destruct (m_model (self w)); intros [= _ ->].
Qed.

Lemma keeps_set_heap h : keeps R (set_heap h).
Proof. intros w r w' [= _ <-]. by apply R_quiet. Qed.

Lemma keeps_buffer_setSize dest c n : keeps R (TorchModel.buffer_setSize dest c n).
Proof.
  unfold TorchModel.buffer_setSize. apply keeps_bind; [done|apply keeps_deref|].
  intros b w r w'. destruct (setSize c n b (heap w)) as [r0 [b' h']].
  intros [= _ <-]. by apply R_quiet.
Qed.

Lemma keeps_to_buffer t dest : keeps R (TorchModel.to_buffer t dest).
Proof.
  unfold TorchModel.to_buffer. destruct (negb _); [by apply keeps_crash|].
  repeat first
    [ apply keeps_buffer_setSize | apply keeps_for_each; [done|intros ?]
    | by apply keeps_lift | apply keeps_deref
    | apply keeps_gets | apply keeps_set_heap | by apply keeps_ret
    | apply keeps_bind; [done| |intros ?] ].
Qed.

Lemma keeps_lock_guard {A} (body : M World A) :
  (∀ w b, R w (with_self (set_m_mutex b) w)) ->
  keeps R body -> keeps R (lock_guard body).
Proof.
  intros Hmx Hb w r w'. unfold lock_guard.
  destruct (m_mutex (self w)); [by intros [= _ <-]|].
  destruct (body _) as [[a|e|f] w1] eqn:H1; intros [= <- <-];
    apply Hb in H1.
  - transitivity (with_self (set_m_mutex true) w); [apply Hmx|].
    transitivity w1; [done|apply Hmx].
  - transitivity (with_self (set_m_mutex true) w); [apply Hmx|].
    transitivity w1; [done|apply Hmx].
  - transitivity (with_self (set_m_mutex true) w); [apply Hmx|done].
Qed.

Lemma keeps_invoke_of name args :
  keeps R (emit (Called name args)) -> keeps R (invoke name args).
Proof.
  intros He. unfold invoke. apply keeps_bind; [done|apply keeps_with_m_model|].
  intros m. destruct (methods m !! name).
  - apply keeps_bind; [done|done|]. intros _. by apply keeps_lift.
  - by apply keeps_throw.
Qed.

(** [process] keeps whatever its three kinds of events keep. *)
Lemma keeps_process T p sr params :
  (∀ w b, R w (with_self (set_m_mutex b) w)) ->
  (∀ e, forward_gets (fst (TorchWave2Wave.marshal params)) e -> keeps R (emit e)) ->
  keeps R (TorchWave2Wave.process T p sr params).
Proof.
  intros Hmx Hemit. unfold TorchWave2Wave.process.
  apply keeps_lock_guard; [done|].
  apply keeps_bind; [done|apply keeps_deref|]. intros b.
  apply keeps_bind; [done|apply keeps_gets|]. intros h.
  destruct (TorchWave2Wave.marshal params) as [parameters parameters2]. cbn [fst] in Hemit.
  apply keeps_try_catch_cstr; [done| |].
  - apply keeps_bind; [done| |].
    { apply keeps_invoke_of, Hemit. by intros args [=]. }
    intros r. apply keeps_bind; [done|by apply keeps_lift|]. intros resampled.
    apply keeps_bind; [done| |].
    { apply keeps_invoke_of, Hemit. intros args [= <-]. by exists resampled. }
    intros o. apply keeps_bind; [done|by apply keeps_lift|]. intros output.
    apply keeps_bind; [done|apply keeps_to_buffer|intros ?; by apply keeps_ret].
  - intros msg. apply keeps_bind; [done| |intros _; by apply keeps_ret].
    apply Hemit. by intros args [=].
Qed.

End KeepsWorld.

Lemma keeps_emit P e : P e -> keeps (extends_trace P) (emit e).
Proof. intros He w r w' [= _ <-]. exists [e]. split; [done|]. by constructor. Qed.

Lemma keeps_update_card f : keeps graph_kept (update_card f).
Proof.
  apply keeps_modify. intros w. split; [done|]. by apply extends_trace_same.
Qed.

Lemma keeps_populate_card pycard : keeps graph_kept (TorchModel.populate_card pycard).
Proof.
  unfold TorchModel.populate_card.
  repeat first
    [ apply keeps_update_card | apply keeps_lift, _
    | apply keeps_for_each; [apply _|intros ?]
    | apply keeps_bind; [apply _| |intros ?] ].
Qed.

Lemma keeps_read_card :
  keeps graph_kept
    (card <- with_m_model (fun m => getAttr (attributes m) "model_card") ;;
     pycard <- lift (toObject card) ;;
     TorchModel.populate_card pycard ;;
     broadcastModelCardLoaded ;;
     ret true).
Proof.
  apply keeps_bind; [apply _|apply keeps_with_m_model, _|]. intros card.
  apply keeps_bind; [apply _|apply keeps_lift, _|]. intros pycard.
  apply keeps_bind; [apply _|apply keeps_populate_card|]. intros _.
  apply keeps_bind; [apply _| |intros _; apply keeps_ret, _].
  intros w r w' [= _ <-]. split; [done|].
  eexists [_]. split; [done|]. by constructor.
Qed.

(** *** [load] *)

Lemma getAttr_Normal_inv o key v : getAttr o key = Normal v -> o !! key = Some v.
Proof. unfold getAttr. destruct (o !! key); intros H; by inversion H. Qed.

Lemma push_tags_Normal_inv l w w' :
  for_each l (fun tag => s <- lift (toStringRef tag) ;; update_card (tags_push_back s)) w
    = (Normal tt, w') ->
  ∃ tl, l = IVString <$> tl ∧
        w' = with_self (fun t => set_m_card (set_tags (tags (m_card t) ++ tl) (m_card t)) t) w.
Proof.
  revert w. induction l as [|v l IH]; intros w H.
  - exists []. split; [done|]. inversion H; subst.
    destruct w' as [[? ? [] ?] ? ? ?]. unfold with_self, set_m_card, set_tags. cbn.
    by rewrite app_nil_r.
  - cbn [for_each] in H.
    apply bind_Normal_inv in H as ([] & w1 & H1 & H2).
    apply bind_Normal_inv in H1 as (s & w0 & Hs & Hu).
    apply lift_inv in Hs as [Hs ->].
    destruct v as [ | | | |s'| | | ]; try discriminate. injection Hs as <-.
    apply IH in H2 as (tl & -> & ->).
    exists (s :: tl). split; [done|].
    inversion Hu; subst. destruct w as [[? ? [] ?] ? ? ?].
    unfold with_self, set_m_card, tags_push_back, set_tags. cbn.
    by rewrite <- app_assoc.
Qed.

Lemma read_string_field pycard key (setter : string -> ModelCard -> ModelCard) w w' a :
  (v <- lift (getAttr pycard key) ;; s <- lift (toStringRef v) ;;
   update_card (setter s)) w = (Normal a, w') ->
  ∃ s, pycard !! key = Some (IVString s) ∧
       w' = with_self (fun t => set_m_card (setter s (m_card t)) t) w.
Proof.
  intros H.
  apply bind_Normal_inv in H as (v & w1 & Hv & H).
  apply bind_Normal_inv in H as (s & w2 & Hs & H).
  apply lift_inv in Hv as [Hv ->]. apply lift_inv in Hs as [Hs ->].
  symmetry in Hv. apply getAttr_Normal_inv in Hv.
  destruct v as [ | | | |s'| | | ]; try discriminate. injection Hs as ->.
  exists s'. split; [done|]. by inversion H.
Qed.

Lemma read_int_field pycard key (setter : Z -> ModelCard -> ModelCard) w w' a :
  (v <- lift (getAttr pycard key) ;; r <- lift (toInt v) ;;
   update_card (setter r)) w = (Normal a, w') ->
  ∃ r, pycard !! key = Some (IVInt r) ∧
       w' = with_self (fun t => set_m_card (setter r (m_card t)) t) w.
Proof.
  intros H.
  apply bind_Normal_inv in H as (v & w1 & Hv & H).
  apply bind_Normal_inv in H as (s & w2 & Hs & H).
  apply lift_inv in Hv as [Hv ->]. apply lift_inv in Hs as [Hs ->].
  symmetry in Hv. apply getAttr_Normal_inv in Hv.
  destruct v as [ | |i| | | | | ]; try discriminate. injection Hs as ->.
  exists i. split; [done|]. by inversion H.
Qed.

Lemma populate_card_Normal_inv pycard w w' :
  TorchModel.populate_card pycard w = (Normal tt, w') ->
  ∃ c, card_read_from pycard (tags (m_card (self w))) c ∧
       w' = with_self (set_m_card c) w.
Proof.
  unfold TorchModel.populate_card. intros H.
  apply bind_Normal_inv in H as (? & w1 & H1 & H).
  apply bind_Normal_inv in H as (? & w2 & H2 & H).
  apply bind_Normal_inv in H as (? & w3 & H3 & H).
  apply bind_Normal_inv in H as (? & w4 & H4 & H).
  apply bind_Normal_inv in H as (v & w5 & Hv & H).
  apply bind_Normal_inv in H as (l & w6 & Hl & H).
  apply read_string_field in H1 as (n & Hn & ->).
  apply read_string_field in H2 as (d & Hd & ->).
  apply read_string_field in H3 as (a & Ha & ->).
  apply read_int_field in H4 as (r & Hr & ->).
  apply lift_inv in Hv as [Hv ->]. apply lift_inv in Hl as [Hl ->].
  symmetry in Hv. apply getAttr_Normal_inv in Hv.
  destruct v as [ | | | | |l'| | ]; try discriminate. injection Hl as ->.
  apply push_tags_Normal_inv in H as (tl & -> & ->).
  exists {| name := n; description := d; author := a; sampleRate := r;
            tags := tags (m_card (self w)) ++ tl |}.
  split.
  - unfold card_read_from. cbn. eauto 10.
  - destruct w as [[? ? [] ?] ? ? ?]. reflexivity.
Qed.

(** A [load] that returns true went through every statement of the [try]
    block. *)
Lemma load_true_inv T params w w' :
  TorchModel.load T params w = (Normal true, w') ->
  ∃ path m pycard c,
    params !! "modelPath" = Some (AnyString path) ∧
    jit_load T path = Normal m ∧
    attributes m !! "model_card" = Some (IVObject pycard) ∧
    card_read_from pycard (tags (m_card (self w))) c ∧
    m_mutex (self w) = false ∧
    w' = {| self := {| m_model := Some (eval m); m_loaded := true;
                       m_card := c; m_mutex := false |};
            trace := trace w ++ [Cout "Loading model";
                                 ChangeMessage (m_card (self w));
                                 ModelCardLoaded c];
            heap := heap w; buffers := buffers w |}.
Proof.
  unfold TorchModel.load. intros H.
  apply bind_Normal_inv in H as ([] & w1 & He & H).
  inversion He; subst w1; clear He.
  apply lock_guard_Normal_inv in H as (Hmx & w2 & H & ->).
  destruct (contains params "modelPath"); [cbn [negb] in H|discriminate].
  apply bind_Normal_inv in H as (a & w3 & Ha & H).
  apply bind_Normal_inv in H as (path & w4 & Hp & H).
  apply lift_inv in Ha as [Ha ->]. apply lift_inv in Hp as [Hp ->].
  unfold map_at in Ha. destruct (params !! "modelPath") as [a'|] eqn:Hk; [|discriminate].
  injection Ha as ->.
  destruct a' as [ | | | |p| ]; try discriminate. injection Hp as ->.
  apply try_catch_cstr_Normal_inv in H as [H|(msg & w5 & _ & H)].
  2:{ apply bind_Normal_inv in H as (? & ? & _ & H).
      apply bind_Normal_inv in H as (? & ? & _ & H). discriminate. }
  apply bind_Normal_inv in H as (m & w5 & Hm & H).
  apply lift_inv in Hm as [Hm ->].
  apply bind_Normal_inv in H as ([] & w6 & H6 & H). inversion H6; subst w6; clear H6.
  apply bind_Normal_inv in H as (m' & w7 & H7 & H). inversion H7; subst m' w7; clear H7.
  apply bind_Normal_inv in H as ([] & w8 & H8 & H). inversion H8; subst w8; clear H8.
  apply bind_Normal_inv in H as ([] & w9 & H9 & H). inversion H9; subst w9; clear H9.
  apply bind_Normal_inv in H as ([] & w10 & H10 & H). inversion H10; subst w10; clear H10.
  apply bind_Normal_inv in H as (card & w11 & H11 & H).
  unfold with_m_model in H11. cbn in H11. inversion H11 as [[Hc Hw]]; subst w11; clear H11.
  apply getAttr_Normal_inv in Hc.
  apply bind_Normal_inv in H as (pycard & w12 & H12 & H).
  apply lift_inv in H12 as [H12 ->].
  destruct card as [ | | | | | |o| ]; try discriminate. injection H12 as ->.
  apply bind_Normal_inv in H as ([] & w13 & Hpop & H).
  apply populate_card_Normal_inv in Hpop as (c & Hc' & ->).
  apply bind_Normal_inv in H as ([] & w14 & Hb & H).
  inversion Hb; subst w14; clear Hb. inversion H; subst w2; clear H.
  exists p, m, o, c.
  split; [done|]. split; [done|]. split; [done|].
  split; [exact Hc'|]. split; [exact Hmx|].
  destruct w as [[? ? ? ?] ? ? ?]. cbn in *.
  unfold with_self, set_m_card, set_m_mutex. cbn. by rewrite <- !app_assoc.
Qed.


(** A [load] during which no graph is deserialised leaves the handle as it
    was and notifies nobody. *)
Ltac only_events evs :=
  match goal with
  | H : (_, _) = (_, _) |- _ => inversion H; subst; clear H
  end;
  split; [done|]; split; [done|];
  exists evs; split; [cbn; by rewrite <- ?app_assoc|];
  let e := fresh "e" in let He := fresh "He" in
  intros e He;
  repeat (apply elem_of_cons in He as [->|He]; [done|]);
  by apply elem_of_nil in He.

Lemma load_without_graph T params w r w' :
  TorchModel.load T params w = (r, w') ->
  (∀ path m, params !! "modelPath" = Some (AnyString path) -> jit_load T path ≠ Normal m) ->
  r ≠ Normal true ∧ same_handle (self w) (self w') ∧
  ∃ evs, trace w' = (trace w ++ evs)%list ∧ ∀ e, e ∈ evs -> notification e = None.
Proof.
  intros H Hno.
  unfold TorchModel.load, bind, emit, modify, lock_guard, contains, ret, lift,
    map_at, any_cast_string, try_catch_cstr in H. cbn in H.
  destruct (m_mutex (self w)) eqn:Hmx; [only_events [Cout "Loading model"]|].
  destruct (params !! "modelPath") as [a|] eqn:Hk.
  2:{ rewrite bool_decide_eq_false_2 in H by (by intros [? ?]). cbn in H.
      only_events [Cout "Loading model"]. }
  rewrite bool_decide_eq_true_2 in H by eauto. cbn in H.
  destruct a as [ | | | |path| ]; try only_events [Cout "Loading model"].
  specialize (Hno path).
  destruct (jit_load T path) as [m|[msg| | |]|f] eqn:Hj;
    [by destruct (Hno m)| |only_events [Cout "Loading model"]..].
  cbn in H.
  only_events [Cout "Loading model"; Cerr "Error loading the model"; Cerr msg].
Qed.

(** Once the graph is deserialised it is stored, the flag is set and the
    change message is sent, whatever happens afterwards. *)
Lemma load_with_graph T params w path m r w' :
  params !! "modelPath" = Some (AnyString path) -> jit_load T path = Normal m ->
  m_mutex (self w) = false ->
  TorchModel.load T params w = (r, w') ->
  m_model (self w') = Some (eval m) ∧ m_loaded (self w') = true ∧
  ∃ evs, trace w' =
         (trace w ++ Cout "Loading model" :: ChangeMessage (m_card (self w)) :: evs)%list.
Proof.
  intros Hk Hj Hmx.
  unfold TorchModel.load, bind at 1, emit at 1, modify at 1, lock_guard.
  cbn [self]. rewrite Hmx.
  unfold contains, map_at. rewrite Hk. rewrite bool_decide_eq_true_2 by eauto.
  cbn [negb]. unfold bind at 1, lift at 1, bind at 1, lift at 1. cbn [any_cast_string].
  unfold try_catch_cstr.
  unfold bind at 1, lift at 1. rewrite Hj.
  unfold bind at 1, modify at 1. unfold bind at 1, with_m_model at 1.
  cbn [self with_self m_model set_m_model].
  unfold bind at 1, modify at 1. unfold bind at 1, modify at 1.
  unfold bind at 1, sendChangeMessage, bind at 1, gets at 1, emit at 1, modify at 1.
  match goal with |- context [bind ?c ?k ?w0] =>
    destruct (bind c k w0) as [r1 w1] eqn:E
  end.
  apply keeps_read_card in E as [[Hm Hl] (evs & Ht & _)].
  destruct w as [[mm ml mc mx] tr h bs]. cbn in Hmx, Hm, Hl, Ht |- *. subst mx.
  assert (∀ evs', trace w1 ++ evs' =
                  tr ++ Cout "Loading model" :: ChangeMessage mc :: (evs ++ evs'))%list
    as Htr by (intros evs'; rewrite Ht, <- !app_assoc; done).
  destruct r1 as [a|[msg| | |]|f]; intros [= <- <-]; cbn;
    unfold bind, emit, modify, ret; cbn; rewrite ?Hm, ?Hl;
    (split; [done|]; split; [done|]); rewrite <- ?app_assoc;
    try (eexists; apply Htr).
  all: exists evs; by rewrite <- (app_nil_r evs), <- Htr, app_nil_r.
Qed.

Lemma demo_load_succeeds :
  TorchModel.load demo_torch valid_params fresh_world = (Normal true, loaded_world).
Proof. apply run_eq. vm_compute. reflexivity. Qed.

Lemma demo_load_trace :
  trace loaded_world =
    [Cout "Loading model"; ChangeMessage (m_card TorchModel.new);
     ModelCardLoaded (m_card (self loaded_world))].
Proof. vm_compute. reflexivity. Qed.



(** C1 (as the code has it): on every successful [load] the model-card
    broadcast is the last thing fired, after all five fields of the card
    have been written, and it shows the fully populated card; the change
    message for the listeners registered with [addListener] was sent before
    it, when the card still had the contents it had before the call. *)
Theorem load_broadcasts_populated_card T params w w' :
  TorchModel.load T params w = (Normal true, w') ->
  ∃ m pycard,
    m_model (self w') = Some m ∧
    attributes m !! "model_card" = Some (IVObject pycard) ∧
    card_read_from pycard (tags (m_card (self w))) (m_card (self w')) ∧
    trace w' = (trace w ++ [Cout "Loading model";
                            ChangeMessage (m_card (self w));
                            ModelCardLoaded (m_card (self w'))])%list.
Proof.
  intros H.
  apply load_true_inv in H as (path & m & pycard & c & Hk & Hj & Hc & Hr & _ & ->).
  exists (eval m), pycard. by cbn.
Qed.

Lemma load_broadcasts_populated_card_witness :
  TorchModel.load demo_torch valid_params fresh_world = (Normal true, loaded_world) ∧
  ∃ m pycard,
    m_model (self loaded_world) = Some m ∧
    attributes m !! "model_card" = Some (IVObject pycard) ∧
    card_read_from pycard (tags (m_card (self fresh_world))) (m_card (self loaded_world)) ∧
    trace loaded_world =
      (trace fresh_world ++ [Cout "Loading model";
                             ChangeMessage (m_card (self fresh_world));
                             ModelCardLoaded (m_card (self loaded_world))])%list.
Proof.
  split; [apply run_eq; vm_compute; reflexivity|].
  apply (load_broadcasts_populated_card demo_torch valid_params fresh_world loaded_world).
  apply run_eq. vm_compute. reflexivity.
Defined.

(** C1 as stated fails: in the successful load of "valid.model" on a new
    handle, not every notification fired shows a populated card.  The change
    message is sent while the card is still empty. *)
Lemma change_message_precedes_card_population :
  ¬ (∀ w', TorchModel.load demo_torch valid_params fresh_world = (Normal true, w') ->
       ∀ e c, e ∈ drop (length (trace fresh_world)) (trace w') ->
              notification e = Some c -> card_read_from demo_card [] c).
Proof.
  intros H. specialize (H _ demo_load_succeeds (ChangeMessage (m_card TorchModel.new))
                          (m_card TorchModel.new)).
  rewrite demo_load_trace in H. cbn [fresh_world trace length drop] in H.
  destruct H as [Hname _]; [set_solver|done|].
  vm_compute in Hname. discriminate.
Qed.

(** C2 (as the code has it): a [load] that fails without a graph having been
    deserialised (no "modelPath", a "modelPath" that is not a string, or
    [torch::jit::load] failing) leaves graph, loaded-flag and card as they
    were, so [ready()] answers as before, and fires no notification. *)
Theorem failed_load_without_graph_keeps_handle T params w r w' :
  TorchModel.load T params w = (r, w') ->
  (∀ path m, params !! "modelPath" = Some (AnyString path) -> jit_load T path ≠ Normal m) ->
  r ≠ Normal true ∧
  same_handle (self w) (self w') ∧
  TorchModel.ready (self w') = TorchModel.ready (self w) ∧
  ∃ evs, trace w' = (trace w ++ evs)%list ∧ ∀ e, e ∈ evs -> notification e = None.
Proof.
  intros H Hno.
  destruct (load_without_graph _ _ _ _ _ H Hno) as (Hr & Hs & Hev).
  split; [done|]. split; [done|]. split; [|done].
  unfold TorchModel.ready. apply Hs.
Qed.

Lemma failed_load_without_graph_keeps_handle_witness :
  let run := TorchModel.load demo_torch missing_params fresh_world in
  (∀ path m, missing_params !! "modelPath" = Some (AnyString path) ->
             jit_load demo_torch path ≠ Normal m) ∧
  fst run ≠ Normal true ∧
  same_handle (self fresh_world) (self (snd run)) ∧
  TorchModel.ready (self (snd run)) = TorchModel.ready (self fresh_world) ∧
  ∃ evs, trace (snd run) = (trace fresh_world ++ evs)%list ∧
         ∀ e, e ∈ evs -> notification e = None.
Proof.
  intros run.
  assert (∀ path m, missing_params !! "modelPath" = Some (AnyString path) ->
                    jit_load demo_torch path ≠ Normal m) as Hno.
  { intros path m Hk Hj. vm_compute in Hk. injection Hk as Hp. subst path.
    vm_compute in Hj. discriminate Hj. }
  split; [exact Hno|].
  apply (failed_load_without_graph_keeps_handle demo_torch missing_params fresh_world
           (fst run) (snd run)); [apply surjective_pairing|exact Hno].
Defined.

(** C2 as stated fails: loading "cardless.model", whose graph deserialises
    but has no model card, fails and yet leaves the loaded-flag set. *)
Lemma metadata_failure_is_not_rolled_back :
  ¬ (∀ r w', TorchModel.load demo_torch cardless_params fresh_world = (r, w') ->
       r ≠ Normal true ->
       m_loaded (self w') = m_loaded (self fresh_world) ∧
       TorchModel.ready (self w') = TorchModel.ready (self fresh_world) ∧
       ∀ e, e ∈ drop (length (trace fresh_world)) (trace w') -> notification e = None).
Proof.
  intros H.
  destruct (TorchModel.load demo_torch cardless_params fresh_world) as [r w'] eqn:E.
  destruct (H r w' eq_refl) as [Hl _].
  - vm_compute in E. by inversion E.
  - vm_compute in E. inversion E; subst. vm_compute in Hl. discriminate.
Qed.

(** *** The parameter loop of [process] *)

Lemma dict_insert_fresh {V} key (v : V) (d : gmap string V) :
  d !! key = None -> dict_insert key v d = <[key := v]> d.
Proof. unfold dict_insert. by intros ->. Qed.

(** The loop, in closed form: [parameters] has one tensor per entry,
    [parameters2] one value per entry of a tested type. *)
Lemma marshal_spec (params : gmap string any) :
  TorchWave2Wave.marshal params =
    ((fun v => torch_tensor [valueAsDouble v]) <$> params, omap in_parameters2 params).
Proof.
  unfold TorchWave2Wave.marshal.
  apply (map_fold_weak_ind
           (fun r m => r = ((fun v => torch_tensor [valueAsDouble v]) <$> m,
                            omap in_parameters2 m))).
  - by rewrite fmap_empty, omap_empty.
  - intros key v m r Hfresh ->.
    assert (((fun v => torch_tensor [valueAsDouble v]) <$> m) !! key = None) as H1
      by (by rewrite lookup_fmap, Hfresh).
    assert (omap in_parameters2 m !! key = None) as H2
      by (by rewrite lookup_omap, Hfresh).
    rewrite fmap_insert, omap_insert.
    destruct v; cbn; rewrite ?dict_insert_fresh by done; try done.
    by rewrite delete_id.
Qed.

(** [process] sees the values of [params] only through [valueAsDouble]. *)
Lemma process_uses_doubles_only T p sr params params' :
  (∀ key, valueAsDouble <$> params !! key = valueAsDouble <$> params' !! key) ->
  TorchWave2Wave.process T p sr params = TorchWave2Wave.process T p sr params'.
Proof.
  intros H. unfold TorchWave2Wave.process. rewrite !marshal_spec.
  replace ((fun v => torch_tensor [valueAsDouble v]) <$> params')
    with ((fun v => torch_tensor [valueAsDouble v]) <$> params); [done|].
  apply map_eq. intros key. rewrite !lookup_fmap.
  specialize (H key). destruct (params !! key), (params' !! key); cbn in *; congruence.
Qed.

(** *** [process] *)


(** [process] leaves graph, loaded-flag and card alone ... *)
Lemma process_keeps_handle T p sr params :
  keeps handle_kept (TorchWave2Wave.process T p sr params).
Proof.
  apply keeps_process; [apply _| | |].
  - intros w w' _ Hs. unfold handle_kept. by rewrite Hs.
  - by intros w b.
  - intros e _ w r w' [= _ <-]. done.
Qed.

(** ... and, unless the program has died, gives the mutex back: the handle
    can be called again. *)
Lemma lock_guard_releases {A} (body : M World A) w r w' :
  lock_guard body w = (r, w') -> m_mutex (self w) = false ->
  (∀ f, r ≠ Fatal f) -> m_mutex (self w') = false.
Proof.
  unfold lock_guard. intros H Hmx Hr. rewrite Hmx in H.
  destruct (body _) as [[a|e|f] w1]; inversion H; subst; try done.
  by destruct (Hr f).
Qed.

Lemma process_releases_mutex T p sr params w r w' :
  TorchWave2Wave.process T p sr params w = (r, w') -> m_mutex (self w) = false ->
  (∀ f, r ≠ Fatal f) -> m_mutex (self w') = false.
Proof. apply lock_guard_releases. Qed.

Lemma load_releases_mutex T params w r w' :
  TorchModel.load T params w = (r, w') -> m_mutex (self w) = false ->
  (∀ f, r ≠ Fatal f) -> m_mutex (self w') = false.
Proof.
  unfold TorchModel.load, bind at 1, emit at 1, modify at 1.
  intros H Hmx. eapply lock_guard_releases; [exact H|exact Hmx].
Qed.

(** Without a graph, [process] stops at the first [m_model->]. *)
Lemma process_on_null_graph T p sr params w b :
  m_mutex (self w) = false -> buffers w !! p = Some b -> m_model (self w) = None ->
  TorchWave2Wave.process T p sr params w =
    (Fatal NullDereference, with_self (set_m_mutex true) w).
Proof.
  intros Hmx Hb Hm.
  unfold TorchWave2Wave.process, lock_guard. rewrite Hmx.
  unfold bind at 1. unfold deref at 1. cbn [buffers with_self]. rewrite Hb.
  unfold bind at 1. unfold gets at 1.
  destruct (TorchWave2Wave.marshal params) as [parameters parameters2].
  unfold try_catch_cstr, bind at 1, invoke, bind at 1, with_m_model.
  cbn [self with_self m_model set_m_mutex]. by rewrite Hm.
Qed.

(** When the graph's resampler throws, [process] turns a thrown C string
    into a line on [std::cerr] and lets everything else through. *)
Lemma process_lets_exceptions_through T p sr params w b m fr e :
  m_mutex (self w) = false -> buffers w !! p = Some b ->
  m_model (self w) = Some m -> methods m !! "resample" = Some fr ->
  fr [IVTensor (mean_dim0_keepdim T (TorchModel.to_tensor (heap w) b)); IVInt sr]
    = Thrown e ->
  TorchWave2Wave.process T p sr params w =
    match e with
    | CString msg =>
        (Normal tt,
         {| self := self w;
            trace := trace w ++
              [Called "resample"
                 [IVTensor (mean_dim0_keepdim T (TorchModel.to_tensor (heap w) b));
                  IVInt sr];
               Cerr ("Error processing audio: " +:+ msg)];
            heap := heap w; buffers := buffers w |})
    | _ =>
        (Thrown e,
         {| self := self w;
            trace := trace w ++
              [Called "resample"
                 [IVTensor (mean_dim0_keepdim T (TorchModel.to_tensor (heap w) b));
                  IVInt sr]];
            heap := heap w; buffers := buffers w |})
    end.
Proof.
  intros Hmx Hb Hm Hr He.
  unfold TorchWave2Wave.process, lock_guard. rewrite Hmx.
  unfold bind at 1. unfold deref at 1. cbn [buffers with_self]. rewrite Hb.
  unfold bind at 1. unfold gets at 1.
  destruct (TorchWave2Wave.marshal params) as [parameters parameters2].
  unfold try_catch_cstr, bind at 1, invoke, bind at 1, with_m_model.
  cbn [self with_self m_model set_m_mutex heap]. rewrite Hm, Hr.
  unfold bind, emit, modify, lift, ret. cbn. rewrite He.
  destruct w as [[? ? ? ?] ? ? ?]. cbn in *. subst.
  destruct e; cbn; try done. by rewrite <- app_assoc.
Qed.

(** C3, at the failing input: the handle has loaded "failing.model", whose
    resampler fails with a [c10::Error]; the error leaves [process]
    uncaught. *)
Theorem process_throws_c10_error :
  fst (TorchWave2Wave.process demo_torch 0 44100 ∅ failing_world)
    = Thrown (C10Error "resample: shape mismatch").
Proof. vm_compute. reflexivity. Qed.

(** The earlier variant of [process] has the same handler and lets the
    same error through. *)
Example earlier_process_throws_c10_error :
  fst (Earlier.process demo_torch 0 44100
         {[ "A" := AnyDouble (S754_finite false 4503599627370496 (-53)) ]} failing_world)
    = Thrown (C10Error "resample: shape mismatch").
Proof. vm_compute. reflexivity. Qed.

(** A result of the wrong rank is not caught either: the assertion in
    [to_buffer] ends the program. *)
Example process_aborts_on_flat_output :
  fst (TorchWave2Wave.process demo_torch 0 44100 ∅ flat_world) = Fatal AssertionFailure.
Proof. vm_compute. reflexivity. Qed.



(** The scenario of the design document: with [{"gain": 0.5}] the graph's
    "forward" is called, with the tensor of 0.5 under "gain". *)
Example gain_reaches_forward :
  let run := TorchWave2Wave.process demo_torch 0 44100 gain_params loaded_world in
  fst run = Normal tt ∧
  ∃ resampled,
    last (trace (snd run)) =
      Some (Called "forward"
              [IVTensor resampled;
               IVTensorDict
                 {[ "gain" := torch_tensor [S754_finite false 4503599627370496 (-53)] ]}]).
Proof. cbv zeta. split; [vm_compute; reflexivity|]. eexists. vm_compute. reflexivity. Qed.

(** C4 (as the code has it): for every entry of the parameter map, an
    [int], [float], [double] or [bool] is converted to a double and entered
    under its key as a 1-element tensor, in both dictionaries; a string is
    entered as a string value in [parameters2]; a value of any other type
    raises nothing: it is left out of [parameters2], and [process] runs
    exactly as it would with the double 0.0 in its place. *)
Theorem marshal_dispatches_on_type (params : gmap string any) key v :
  params !! key = Some v ->
  match v with
  | AnyString s =>
      snd (TorchWave2Wave.marshal params) !! key = Some (IVString s)
  | AnyOther _ =>
      snd (TorchWave2Wave.marshal params) !! key = None ∧
      ∀ T p sr,
        TorchWave2Wave.process T p sr params =
        TorchWave2Wave.process T p sr (<[key := AnyDouble (S754_zero false)]> params)
  | _ =>
      fst (TorchWave2Wave.marshal params) !! key
        = Some (torch_tensor [valueAsDouble v]) ∧
      snd (TorchWave2Wave.marshal params) !! key
        = Some (IVTensor (torch_tensor [valueAsDouble v]))
  end.
Proof.
  intros Hk. rewrite marshal_spec. cbn [fst snd].
  rewrite lookup_fmap, lookup_omap, Hk.
  destruct v; cbn; try done.
  split; [done|]. intros T p sr. apply process_uses_doubles_only.
  intros k. destruct (decide (key = k)) as [<-|Hne].
  - by rewrite lookup_insert_eq, Hk.
  - by rewrite lookup_insert_ne.
Qed.

Lemma marshal_dispatches_on_type_witness :
  gain_params !! "gain" = Some (AnyDouble (S754_finite false 4503599627370496 (-53))) ∧
  fst (TorchWave2Wave.marshal gain_params) !! "gain"
    = Some (torch_tensor [S754_finite false 4503599627370496 (-53)]) ∧
  snd (TorchWave2Wave.marshal gain_params) !! "gain"
    = Some (IVTensor (torch_tensor [S754_finite false 4503599627370496 (-53)])).
Proof.
  split; [reflexivity|].
  apply (marshal_dispatches_on_type gain_params "gain"
           (AnyDouble (S754_finite false 4503599627370496 (-53)))).
  reflexivity.
Defined.

(** C4 as stated fails: a value of a type the loop does not test for does
    not make [process] fail. *)
Lemma unsupported_parameter_raises_nothing :
  ¬ (∀ key type_name, unsupported_params !! key = Some (AnyOther type_name) ->
       ∃ e, fst (TorchWave2Wave.process demo_torch 0 44100 unsupported_params loaded_world)
            = Thrown e).
Proof.
  intros H. destruct (H "mode" "long") as [e He]; [done|].
  vm_compute in He. discriminate.
Qed.

(** C5 (as the code has it): the readiness gate is in the caller,
    [AudioModification::process].  While [ready()] is false it returns at
    once: no buffer is created or written, the handle is not called, nothing
    is reported. *)
Theorem not_ready_gate_is_in_caller T params s :
  TorchModel.ready (self (world s)) = false ->
  AudioModification.process T params s = (Normal tt, s).
Proof.
  intros H. unfold AudioModification.process, bind, get. by rewrite H.
Qed.

Lemma not_ready_gate_is_in_caller_witness :
  TorchModel.ready (self (world fresh_session)) = false ∧
  AudioModification.process demo_torch gain_params fresh_session = (Normal tt, fresh_session).
Proof.
  split; [reflexivity|].
  apply (not_ready_gate_is_in_caller demo_torch gain_params fresh_session).
  reflexivity.
Defined.

(** C5 as stated fails: [TorchWave2Wave::process] has no gate of its own.
    Called on a new handle it does not return. *)
Lemma process_before_load_faults :
  ¬ (∃ w', TorchWave2Wave.process demo_torch 0 44100 ∅ fresh_world = (Normal tt, w') ∧
           heap w' = heap fresh_world ∧ buffers w' = buffers fresh_world).
Proof.
  intros (w' & H & _).
  erewrite process_on_null_graph in H; [discriminate|done..].
Qed.

(** *** The codec *)

(** The tensor starts with the first cell of the channel table. *)
Lemma to_tensor_first_element h b :
  0 < getNumChannels b -> 0 < getNumSamples b ->
  ∃ rest, TorchModel.to_tensor h b =
          Dense kFloat [getNumChannels b; getNumSamples b]
                (load32 h (getArrayOfReadPointers b) :: rest).
Proof.
  intros Hc Hn. unfold TorchModel.to_tensor, TorchModel.from_blob, TorchModel.numel.
  cbn [foldr]. rewrite seqZ_cons by nia. cbn [fmap list_fmap].
  rewrite Z.mul_0_r, Z.add_0_r. eauto.
Qed.

(** **** Memory *)

Lemma load32_store32_eq a v h : load32 (store32 a v h) a = v.
Proof. unfold load32, store32. cbn. by rewrite lookup_insert_eq. Qed.

Lemma load32_store32_ne a a' v h : a ≠ a' -> load32 (store32 a v h) a' = load32 h a'.
Proof. intros H. unfold load32, store32. cbn. by rewrite lookup_insert_ne. Qed.

Lemma split_words p :
  Z.lor (Z.land p (Z.ones 32)) (Z.shiftl (Z.shiftr p 32) 32) = p.
Proof.
  apply Z.bits_inj'. intros n Hn.
  rewrite Z.lor_spec, Z.land_spec, Z.shiftl_spec by lia.
  destruct (decide (n < 32)) as [Hlt|Hge].
  - rewrite Z.ones_spec_low by lia. rewrite (Z.testbit_neg_r _ (n - 32)) by lia.
    by rewrite andb_true_r, orb_false_r.
  - rewrite Z.ones_spec_high by lia. rewrite Z.shiftr_spec by lia.
    rewrite andb_false_r. cbn. f_equal. lia.
Qed.

Lemma load_ptr_store_ptr_eq a p h : load_ptr (store_ptr a p h) a = p.
Proof.
  unfold load_ptr, store_ptr.
  rewrite load32_store32_ne by lia. rewrite !load32_store32_eq.
  apply split_words.
Qed.

Lemma load32_store_ptr_ne a a' p h :
  a' ≠ a -> a' ≠ a + 4 -> load32 (store_ptr a p h) a' = load32 h a'.
Proof. intros H1 H2. unfold store_ptr. by rewrite !load32_store32_ne by lia. Qed.

Lemma load_ptr_store_ptr_ne a a' p h :
  a' + 8 <= a ∨ a + 8 <= a' -> load_ptr (store_ptr a p h) a' = load_ptr h a'.
Proof.
  intros H. unfold load_ptr.
  rewrite (load32_store_ptr_ne a a') by lia.
  by rewrite (load32_store_ptr_ne a (a' + 4)) by lia.
Qed.

Lemma table_entries base f l h i :
  i ∈ l ->
  load_ptr (foldr (fun i => store_ptr (base + 8 * i) (f i)) h l) (base + 8 * i) = f i.
Proof.
  induction l as [|k l IH]; [by intros ?%elem_of_nil|]. intros Hin. cbn [foldr].
  destruct (decide (k = i)) as [->|Hne]; [apply load_ptr_store_ptr_eq|].
  rewrite load_ptr_store_ptr_ne by lia. apply IH.
  apply elem_of_cons in Hin as [->|]; done.
Qed.

Lemma write_channel_table_entry base listSize perChannel n h i :
  0 <= i < n ->
  load_ptr (write_channel_table base listSize perChannel n h) (base + 8 * i)
    = base + listSize + 4 * perChannel * i.
Proof.
  intros Hi. unfold write_channel_table.
  rewrite load_ptr_store_ptr_ne by lia.
  apply (table_entries base (fun i => base + listSize + 4 * perChannel * i)).
  apply elem_of_seqZ. lia.
Qed.

(** [std_copy] writes [src] from [dest] on and nothing else. *)
Lemma std_copy_other src : ∀ dest h a,
  (∀ j, (j < length src)%nat -> a ≠ dest + 4 * Z.of_nat j) ->
  load32 (std_copy src dest h) a = load32 h a.
Proof.
  induction src as [|v src IH]; intros dest h a H; [done|]. cbn [std_copy].
  rewrite IH.
  - apply load32_store32_ne. specialize (H 0%nat). cbn in H. lia.
  - intros j Hj. specialize (H (Datatypes.S j)). cbn in H. lia.
Qed.

Lemma std_copy_written src : ∀ dest h j v,
  src !! j = Some v ->
  load32 (std_copy src dest h) (dest + 4 * Z.of_nat j) = v.
Proof.
  induction src as [|x src IH]; intros dest h j v H; [done|]. cbn [std_copy].
  destruct j as [|j].
  - injection H as ->. rewrite std_copy_other.
    + rewrite Z.add_0_r. apply load32_store32_eq.
    + intros j Hj. lia.
  - cbn in H. replace (dest + 4 * Z.of_nat (Datatypes.S j)) with (dest + 4 + 4 * Z.of_nat j) by lia.
    by apply IH.
Qed.

Lemma copy_channel_run t dest i w b src :
  buffers w !! dest = Some b -> TorchModel.row_data_ptr_float t i = Normal src ->
  TorchModel.copy_channel t dest i w =
    (Normal tt,
     with_heap (std_copy (take (Z.to_nat (getNumSamples b)) src)
                         (getWritePointer (heap w) b i) (heap w)) w).
Proof.
  intros Hb Hs. unfold TorchModel.copy_channel, bind, deref, gets, lift, set_heap, modify.
  by rewrite Hb, Hs.
Qed.

Lemma row_of_matrix c n data i :
  0 <= i < c ->
  TorchModel.row_data_ptr_float (Dense kFloat [c; n] data) i
    = Normal (drop (Z.to_nat (i * n)) data).
Proof.
  intros Hi. unfold TorchModel.row_data_ptr_float.
  rewrite decide_True by done. unfold TorchModel.numel. cbn [foldr].
  by rewrite Z.mul_1_r.
Qed.

Lemma row_lookup n (data : list Z) i j :
  0 <= i -> 0 <= j < n ->
  take (Z.to_nat n) (drop (Z.to_nat (i * n)) data) !! Z.to_nat j
    = data !! Z.to_nat (i * n + j).
Proof.
  intros Hi Hj. rewrite lookup_take_lt by lia. rewrite lookup_drop.
  f_equal. nia.
Qed.

Lemma laid_out_frame h h' b P :
  laid_out h b P ->
  (∀ k, 0 <= k < numChannels b ->
        load32 h' (channels b + 8 * k) = load32 h (channels b + 8 * k) ∧
        load32 h' (channels b + 8 * k + 4) = load32 h (channels b + 8 * k + 4)) ->
  laid_out h' b P.
Proof.
  intros (Hp & Hsep) Hsame. split; [|done].
  intros i Hi. rewrite <- (Hp i Hi). unfold getReadPointer, load_ptr.
  destruct (Hsame i Hi) as [-> ->]. done.
Qed.

Lemma copy_loop c n (data : list Z) dest b P :
  numChannels b = c -> size b = n -> 0 <= n ->
  length data = Z.to_nat (c * n) ->
  ∀ l w,
    (∀ i, i ∈ l -> 0 <= i < c) -> buffers w !! dest = Some b ->
    laid_out (heap w) b P ->
    ∃ h',
      for_each l (TorchModel.copy_channel (Dense kFloat [c; n] data) dest) w
        = (Normal tt, with_heap h' w) ∧
      (∀ i j, i ∈ l -> 0 <= j < n ->
              data !! Z.to_nat (i * n + j) = Some (load32 h' (P i + 4 * j))) ∧
      (∀ a, (∀ i j, i ∈ l -> 0 <= j < n -> a ≠ P i + 4 * j) ->
            load32 h' a = load32 (heap w) a).
Proof.
  intros Hc Hn Hn0 Hlen. induction l as [|k l IH]; intros w Hl Hb Hlaid.
  - exists (heap w). split; [by destruct w|]. split; [|done].
    by intros i j ?%elem_of_nil.
  - assert (0 <= k < c) as Hk by (apply Hl; by left).
    cbn [for_each]. unfold bind at 1.
    rewrite (copy_channel_run _ _ _ _ b _ Hb (row_of_matrix c n data k Hk)).
    destruct Hlaid as (Hp & Htab & Hsep).
    unfold getWritePointer. fold (getReadPointer (heap w) b k).
    rewrite Hp by lia. unfold getNumSamples. rewrite Hn.
    set (row := take (Z.to_nat n) (drop (Z.to_nat (k * n)) data)).
    set (h1 := std_copy row (P k) (heap w)).
    assert (length row = Z.to_nat n) as Hrow.
    { unfold row. rewrite length_take, length_drop. nia. }
    assert (∀ a, (∀ j, 0 <= j < n -> a ≠ P k + 4 * j) -> load32 h1 a = load32 (heap w) a)
      as Hframe1.
    { intros a Ha. apply std_copy_other. intros j Hj. apply Ha. lia. }
    assert (∀ j, 0 <= j < n ->
                 data !! Z.to_nat (k * n + j) = Some (load32 h1 (P k + 4 * j))) as Hrow1.
    { intros j Hj. rewrite <- (row_lookup n data k j) by lia. fold row.
      destruct (row !! Z.to_nat j) as [v|] eqn:Hv.
      - f_equal. symmetry. replace j with (Z.of_nat (Z.to_nat j)) at 1 by lia.
        by apply std_copy_written.
      - apply lookup_ge_None in Hv. lia. }
    destruct (IH (with_heap h1 w)) as (h' & Hrun & Hdata & Hframe).
    { intros i Hi. apply Hl. by right. }
    { done. }
    { apply (laid_out_frame (heap w)); [done|]. intros k' Hk'. cbn.
      split; apply Hframe1; intros j Hj; apply not_eq_sym; apply Htab; lia. }
    exists h'. split; [exact Hrun|]. split.
    + intros i j Hi Hj. destruct (decide (i ∈ l)) as [Hin|Hnin]; [by apply Hdata|].
      apply elem_of_cons in Hi as [->|]; [|done].
      rewrite Hframe; [by apply Hrow1|].
      intros i' j' Hi' Hj' Heq. apply Hnin.
      rewrite (Hsep k i' j j'); [done|lia|rewrite Hc; apply Hl; by right|lia|lia|done].
    + intros a Ha. rewrite Hframe.
      * apply Hframe1. intros j Hj. apply Ha; [by left|done].
      * intros i j Hi Hj. apply Ha; [by right|done].
Qed.

Lemma to_int_small z : 0 <= z < 2 ^ 31 -> to_int z = z.
Proof. intros H. unfold to_int. rewrite Z.mod_small; lia. Qed.

(** A block laid out by [write_channel_table] is well formed. *)
Lemma fresh_block_laid_out base listSize perChannel c n h :
  0 <= c -> 0 <= n <= perChannel -> 8 * (c + 1) <= listSize ->
  laid_out (write_channel_table base listSize perChannel c h)
           {| numChannels := c; size := n; channels := base |}
           (fun i => base + listSize + 4 * perChannel * i).
Proof.
  intros Hc Hn Hls. split; [|split]; cbn [numChannels size channels].
  - intros i Hi. unfold getReadPointer. cbn [channels].
    by apply write_channel_table_entry.
  - intros i j k Hi Hj Hk. nia.
  - intros i i' j j' Hi Hi' Hj Hj' Heq. nia.
Qed.

Lemma setSize_laid_out c n b h P :
  0 <= c -> 0 <= n -> laid_out h b P ->
  ∃ b' h' P',
    setSize c n b h = (Normal tt, (b', h')) ∧
    numChannels b' = c ∧ size b' = n ∧ laid_out h' b' P'.
Proof.
  intros Hc Hn Hlaid. unfold setSize.
  rewrite decide_False by lia.
  destruct (decide (n ≠ size b ∨ c ≠ numChannels b)) as [Hne|Heq].
  - cbn [malloc]. eexists _, _, _. split; [reflexivity|].
    split; [done|]. split; [done|].
    apply fresh_block_laid_out; [done| |].
    + pose proof (Z.div_mod (n + 3) 4). pose proof (Z.mod_pos_bound (n + 3) 4). lia.
    + pose proof (Z.div_mod ((1 + c) * 8 + 15) 16).
      pose proof (Z.mod_pos_bound ((1 + c) * 8 + 15) 16). lia.
  - exists b, h, P. split; [done|].
    assert (n = size b ∧ c = numChannels b) as [-> ->]; [|done].
    split; apply dec_stable; intros ?; apply Heq; auto.
Qed.

Lemma to_buffer_matrix dt c n data dest w :
  TorchModel.to_buffer (Dense dt [c; n] data) dest w =
    (TorchModel.buffer_setSize dest (to_int c) (to_int n) ;;
     b <- deref dest ;;
     for_each (seqZ 0 (getNumChannels b))
              (TorchModel.copy_channel (Dense dt [c; n] data) dest) ;;
     ret true) w.
Proof. reflexivity. Qed.

Lemma buffer_setSize_run dest c n w b :
  buffers w !! dest = Some b ->
  TorchModel.buffer_setSize dest c n w =
    (let '(r, (b', h')) := setSize c n b (heap w) in
     (r, {| self := self w; trace := trace w; heap := h';
            buffers := <[dest := b']> (buffers w) |})).
Proof.
  intros Hb. unfold TorchModel.buffer_setSize, bind, deref. by rewrite Hb.
Qed.

(** The decoder is right: a float tensor of shape (c, n) ends up, sample for
    sample, in the destination, which gets that shape. *)
Lemma to_buffer_writes_tensor c n (data : list Z) dest b P w :
  0 <= c < 2 ^ 31 -> 0 <= n < 2 ^ 31 -> length data = Z.to_nat (c * n) ->
  buffers w !! dest = Some b -> laid_out (heap w) b P ->
  ∃ w' b',
    TorchModel.to_buffer (Dense kFloat [c; n] data) dest w = (Normal true, w') ∧
    buffers w' !! dest = Some b' ∧
    getNumChannels b' = c ∧ getNumSamples b' = n ∧
    (∀ i j, 0 <= i < c -> 0 <= j < n ->
            data !! Z.to_nat (i * n + j) = Some (getSample (heap w') b' i j)) ∧
    self w' = self w ∧ trace w' = trace w.
Proof.
  intros Hc Hn Hlen Hb Hlaid.
  destruct (setSize_laid_out c n b (heap w) P) as (b' & h1 & P' & Hset & Hc' & Hn' & Hlaid');
    [lia|lia|done|].
  rewrite to_buffer_matrix. unfold bind at 1.
  rewrite (buffer_setSize_run _ _ _ _ b) by done.
  rewrite !to_int_small by done. rewrite Hset.
  set (w1 := {| self := self w; trace := trace w; heap := h1;
                buffers := <[dest := b']> (buffers w) |}).
  assert (buffers w1 !! dest = Some b') as Hb1 by apply lookup_insert_eq.
  unfold bind at 1, deref at 1. rewrite Hb1. unfold getNumChannels. rewrite Hc'.
  destruct (copy_loop c n data dest b' P' Hc' Hn' ltac:(lia) Hlen (seqZ 0 c) w1)
    as (h' & Hrun & Hdata & Hframe); [|done|done|].
  { intros i Hi%elem_of_seqZ. lia. }
  unfold bind at 1. rewrite Hrun. unfold ret.
  exists (with_heap h' w1), b'.
  split; [done|]. split; [done|]. split; [done|]. split; [done|]. split; [|done].
  intros i j Hi Hj. rewrite (Hdata i j) by (try apply elem_of_seqZ; lia).
  f_equal. unfold getSample. cbn [heap with_heap].
  assert (laid_out h' b' P') as (Hp & _).
  { apply (laid_out_frame h1); [done|]. intros k Hk.
    destruct Hlaid' as (_ & Htab & _).
    split; apply Hframe; intros i' j' Hi'%elem_of_seqZ Hj'; apply not_eq_sym;
      apply Htab; lia. }
  by rewrite Hp by lia.
Qed.


(** What the round trip of the codec returns: the memory that starts at the
    source's channel table, not the source's samples. *)
Lemma round_trip_reads_channel_table src dest b0 P w :
  0 <= getNumChannels src < 2 ^ 31 -> 0 <= getNumSamples src < 2 ^ 31 ->
  buffers w !! dest = Some b0 -> laid_out (heap w) b0 P ->
  ∃ w' b',
    TorchModel.to_buffer (TorchModel.to_tensor (heap w) src) dest w = (Normal true, w') ∧
    buffers w' !! dest = Some b' ∧
    getNumChannels b' = getNumChannels src ∧ getNumSamples b' = getNumSamples src ∧
    ∀ i j, 0 <= i < getNumChannels src -> 0 <= j < getNumSamples src ->
           getSample (heap w') b' i j
           = load32 (heap w) (getArrayOfReadPointers src + 4 * (i * getNumSamples src + j)).
Proof.
  intros Hc Hn Hb Hlaid.
  unfold TorchModel.to_tensor, TorchModel.from_blob, TorchModel.numel. cbn [foldr].
  rewrite Z.mul_1_r.
  set (c := getNumChannels src) in *. set (n := getNumSamples src) in *.
  set (data := (fun k => load32 (heap w) (getArrayOfReadPointers src + 4 * k))
                 <$> seqZ 0 (c * n)).
  destruct (to_buffer_writes_tensor c n data dest b0 P w Hc Hn)
    as (w' & b' & Hrun & Hb' & Hc' & Hn' & Hdata & _); [|done|done|].
  { unfold data. by rewrite length_fmap, length_seqZ. }
  exists w', b'. split; [done|]. split; [done|]. split; [done|]. split; [done|].
  intros i j Hi Hj. specialize (Hdata i j Hi Hj).
  unfold data in Hdata. rewrite list_lookup_fmap, lookup_seqZ_lt in Hdata by nia.
  cbn in Hdata. injection Hdata as <-. f_equal. lia.
Qed.

(** So the round trip changes sample (0, 0) whenever that sample is not, by
    accident, equal to the first cell of the channel table. *)
Lemma round_trip_differs src dest b0 P w :
  0 < getNumChannels src < 2 ^ 31 -> 0 < getNumSamples src < 2 ^ 31 ->
  buffers w !! dest = Some b0 -> laid_out (heap w) b0 P ->
  load32 (heap w) (getArrayOfReadPointers src) ≠ getSample (heap w) src 0 0 ->
  ∃ w' b',
    TorchModel.to_buffer (TorchModel.to_tensor (heap w) src) dest w = (Normal true, w') ∧
    buffers w' !! dest = Some b' ∧
    getSample (heap w') b' 0 0 ≠ getSample (heap w) src 0 0.
Proof.
  intros Hc Hn Hb Hlaid Hne.
  destruct (round_trip_reads_channel_table src dest b0 P w)
    as (w' & b' & Hrun & Hb' & _ & _ & Hs); [lia|lia|done|done|].
  exists w', b'. split; [done|]. split; [done|].
  rewrite Hs by lia. by rewrite Z.mul_0_l, Z.add_0_l, Z.mul_0_r, Z.add_0_r.
Qed.

(** C6, at the failing input: the source buffer has one channel and one
    sample, 1.0f; the destination starts as 2 x 3.  After the round trip
    the destination is 1 x 1, but its sample is 4112, the low word of the
    address of the source's channel 0. *)
Theorem codec_round_trip_yields_pointer_bits :
  fst round_trip = Normal true ∧
  getSample (heap round_trip_world) (fst one_sample_buffer) 0 0 = 1065353216 ∧
  getReadPointer (heap round_trip_world) (fst one_sample_buffer) 0 = 4112 ∧
  ∃ b', buffers (snd round_trip) !! 1%nat = Some b' ∧
        getNumChannels b' = 1 ∧ getNumSamples b' = 1 ∧
        getSample (heap (snd round_trip)) b' 0 0 = 4112.
Proof.
  split; [vm_compute; reflexivity|].
  split; [vm_compute; reflexivity|].
  split; [vm_compute; reflexivity|].
  eexists. split; [vm_compute; reflexivity|].
  split; [reflexivity|]. split; [reflexivity|]. vm_compute. reflexivity.
Qed.

(** C7: on a tensor whose rank is not 2, [to_buffer] stops at the failed
    assertion, before the destination has been touched: the state is the
    one it was called in. *)
Theorem to_buffer_rejects_other_ranks t dest w :
  dim t ≠ 2 ->
  TorchModel.to_buffer t dest w = (Fatal AssertionFailure, w).
Proof.
  intros H. unfold TorchModel.to_buffer.
  by rewrite (proj2 (Z.eqb_neq _ _) H).
Qed.

Lemma to_buffer_rejects_other_ranks_witness :
  dim rank3_tensor ≠ 2 ∧
  TorchModel.to_buffer rank3_tensor 0%nat fresh_world = (Fatal AssertionFailure, fresh_world).
Proof.
  assert (dim rank3_tensor ≠ 2) as H by (vm_compute; discriminate).
  split; [exact H|].
  apply (to_buffer_rejects_other_ranks rank3_tensor 0%nat fresh_world H).
Defined.

(** ** Further properties of the code *)

(** *** The codec, continued *)

Lemma one_sample_buffer_laid_out :
  laid_out (heap fresh_world) (fst one_sample_buffer) (fun _ => 4112).
Proof.
  assert (numChannels (fst one_sample_buffer) = 1) as Ec by reflexivity.
  assert (size (fst one_sample_buffer) = 1) as En by reflexivity.
  assert (channels (fst one_sample_buffer) = 4096) as Et by reflexivity.
  unfold laid_out. rewrite Ec, En, Et. split; [|split].
  - intros i Hi. assert (i = 0) as -> by lia. vm_compute. reflexivity.
  - intros i j k Hi Hj Hk. lia.
  - intros i i' j j' Hi Hi' _ _ _. lia.
Qed.



(** X2: encoding a buffer with [to_tensor] and decoding the result with
    [to_buffer] always gives the destination the source's shape, C channels
    of N samples; its sample (i, j) is the 32-bit cell found 4 (i N + j)
    bytes after the start of the source's table of channel pointers. *)
Theorem round_trip_keeps_shape src dest b0 P w :
  0 <= getNumChannels src < 2 ^ 31 -> 0 <= getNumSamples src < 2 ^ 31 ->
  buffers w !! dest = Some b0 -> laid_out (heap w) b0 P ->
  ∃ w' b',
    TorchModel.to_buffer (TorchModel.to_tensor (heap w) src) dest w = (Normal true, w') ∧
    buffers w' !! dest = Some b' ∧
    getNumChannels b' = getNumChannels src ∧ getNumSamples b' = getNumSamples src ∧
    ∀ i j, 0 <= i < getNumChannels src -> 0 <= j < getNumSamples src ->
           getSample (heap w') b' i j
           = load32 (heap w) (getArrayOfReadPointers src + 4 * (i * getNumSamples src + j)).
Proof. apply round_trip_reads_channel_table. Qed.

Lemma round_trip_keeps_shape_witness :
  let src := fst one_sample_buffer in
  0 <= getNumChannels src < 2 ^ 31 ∧ 0 <= getNumSamples src < 2 ^ 31 ∧
  buffers fresh_world !! 0%nat = Some src ∧
  laid_out (heap fresh_world) src (fun _ => 4112) ∧
  ∃ w' b',
    TorchModel.to_buffer (TorchModel.to_tensor (heap fresh_world) src) 0%nat fresh_world
      = (Normal true, w') ∧
    buffers w' !! 0%nat = Some b' ∧
    getNumChannels b' = getNumChannels src ∧ getNumSamples b' = getNumSamples src ∧
    ∀ i j, 0 <= i < getNumChannels src -> 0 <= j < getNumSamples src ->
           getSample (heap w') b' i j
           = load32 (heap fresh_world)
                    (getArrayOfReadPointers src + 4 * (i * getNumSamples src + j)).
Proof.
  intros src.
  assert (0 <= getNumChannels src < 2 ^ 31) as Hc
    by (change (getNumChannels src) with 1; lia).
  assert (0 <= getNumSamples src < 2 ^ 31) as Hn
    by (change (getNumSamples src) with 1; lia).
  split; [exact Hc|]. split; [exact Hn|]. split; [reflexivity|].
  split; [exact one_sample_buffer_laid_out|].
  apply (round_trip_keeps_shape src 0%nat src (fun _ => 4112) fresh_world Hc Hn);
    [reflexivity|exact one_sample_buffer_laid_out].
Defined.

Lemma setSize_shape c n b h :
  0 <= c -> 0 <= n ->
  ∃ b' h', setSize c n b h = (Normal tt, (b', h')) ∧ numChannels b' = c ∧ size b' = n.
Proof.
  intros Hc Hn. unfold setSize. rewrite decide_False by lia.
  destruct (decide (n ≠ size b ∨ c ≠ numChannels b)) as [Hne|Heq].
  - cbn [malloc]. eexists _, _. split; [reflexivity|]. done.
  - exists b, h. split; [done|].
    split; symmetry; apply dec_stable; intros ?; apply Heq; auto.
Qed.

(** X3: on a tensor of rank 2 that has at least one row and whose element
    type is not float, [to_buffer] throws the [c10::Error] of
    [data_ptr<float>()] only after it has resized the destination: the
    destination is left with the tensor's shape and nothing copied. *)
Theorem to_buffer_resizes_before_type_error dt c n (data : list Z) dest b w :
  dt ≠ kFloat -> 0 < c < 2 ^ 31 -> 0 <= n < 2 ^ 31 ->
  buffers w !! dest = Some b ->
  ∃ w' b',
    TorchModel.to_buffer (Dense dt [c; n] data) dest w
      = (Thrown (C10Error "expected scalar type Float"), w') ∧
    buffers w' !! dest = Some b' ∧
    getNumChannels b' = c ∧ getNumSamples b' = n ∧
    self w' = self w ∧ trace w' = trace w.
Proof.
  intros Hdt Hc Hn Hb.
  destruct (setSize_shape c n b (heap w)) as (b' & h' & Hset & Hc' & Hn'); [lia|lia|].
  rewrite to_buffer_matrix. unfold bind at 1.
  rewrite (buffer_setSize_run _ _ _ _ b) by done.
  rewrite !to_int_small by lia. rewrite Hset.
  set (w1 := {| self := self w; trace := trace w; heap := h';
                buffers := <[dest := b']> (buffers w) |}).
  assert (buffers w1 !! dest = Some b') as Hb1 by apply lookup_insert_eq.
  unfold bind at 1, deref at 1. rewrite Hb1.
  unfold getNumChannels. rewrite Hc'. rewrite seqZ_cons by lia. cbn [for_each].
  unfold bind at 1, bind at 1, TorchModel.copy_channel, bind at 1, deref at 1.
  rewrite Hb1. unfold bind at 1, gets at 1, bind at 1, lift at 1.
  unfold TorchModel.row_data_ptr_float. rewrite decide_True by lia.
  exists w1, b'. by destruct dt.
Qed.

Lemma to_buffer_resizes_before_type_error_witness :
  kDouble ≠ kFloat ∧ 0 < 2 < 2 ^ 31 ∧ 0 <= 3 < 2 ^ 31 ∧
  buffers fresh_world !! 0%nat = Some (fst one_sample_buffer) ∧
  ∃ w' b',
    TorchModel.to_buffer (Dense kDouble [2; 3] []) 0%nat fresh_world
      = (Thrown (C10Error "expected scalar type Float"), w') ∧
    buffers w' !! 0%nat = Some b' ∧
    getNumChannels b' = 2 ∧ getNumSamples b' = 3 ∧
    self w' = self fresh_world ∧ trace w' = trace fresh_world.
Proof.
  assert (kDouble ≠ kFloat) as Hdt by discriminate.
  split; [exact Hdt|]. split; [lia|]. split; [lia|]. split; [reflexivity|].
  apply (to_buffer_resizes_before_type_error kDouble 2 3 [] 0%nat
           (fst one_sample_buffer) fresh_world Hdt); [lia|lia|reflexivity].
Defined.

(** *** [process], continued *)





(** A second set of frame rules, for relations that need not hold across
    every change of memory: what has to be kept is said event by event and
    write by write. *)
Section KeepsObjects.
Context (R : relation World) `{!PreOrder R}.
Context (R_heap : ∀ w h, R w (with_heap h w)).
Context (R_resize : ∀ w p b b' h,
           buffers w !! p = Some b ->
           R w {| self := self w; trace := trace w; heap := h;
                  buffers := <[p := b']> (buffers w) |}).
Context (R_called : ∀ name args, keeps R (emit (Called name args))).
Context (R_cerr : ∀ line, keeps R (emit (Cerr line))).
Context (R_mutex : ∀ w b, R w (with_self (set_m_mutex b) w)).

Lemma objects_set_heap h : keeps R (set_heap h).
Proof. intros w r w' [= _ <-]. apply R_heap. Qed.

Lemma objects_buffer_setSize dest c n : keeps R (TorchModel.buffer_setSize dest c n).
Proof.
  intros w r w'. unfold TorchModel.buffer_setSize, bind at 1, deref.
  destruct (buffers w !! dest) as [b|] eqn:Hb; [|by intros [= _ <-]].
  destruct (setSize c n b (heap w)) as [r0 [b' h']].
  intros [= _ <-]. by eapply R_resize.
Qed.

Lemma objects_to_buffer t dest : keeps R (TorchModel.to_buffer t dest).
Proof.
  unfold TorchModel.to_buffer, TorchModel.copy_channel.
  destruct (negb _); [by apply keeps_crash|].
  repeat first
    [ apply objects_buffer_setSize | apply keeps_for_each; [done|intros ?]
    | by apply keeps_lift | apply keeps_deref, _
    | apply keeps_gets, _ | apply objects_set_heap | by apply keeps_ret
    | apply keeps_bind; [done| |intros ?] ].
Qed.

Lemma objects_invoke name args : keeps R (invoke name args).
Proof. apply keeps_invoke_of; [done|apply R_called]. Qed.

Lemma objects_pipeline (input : IValue) sampleRate parameters bufferToProcess :
  keeps R
    (try_catch_cstr
       (r <- invoke "resample" [input; IVInt sampleRate] ;;
        resampled <- lift (toTensor r) ;;
        o <- TorchModel.forward [IVTensor resampled; IVTensorDict parameters] ;;
        output <- lift (toTensor o) ;;
        TorchModel.to_buffer output bufferToProcess ;;
        ret tt)
       (fun msg =>
          emit (Cerr ("Error processing audio: " +:+ msg)) ;;
          ret tt)).
Proof.
  apply keeps_try_catch_cstr; [done| |].
  - apply keeps_bind; [done|apply objects_invoke|]. intros r.
    apply keeps_bind; [done|by apply keeps_lift|]. intros resampled.
    apply keeps_bind; [done|apply objects_invoke|]. intros o.
    apply keeps_bind; [done|by apply keeps_lift|]. intros output.
    apply keeps_bind; [done|apply objects_to_buffer|intros ?; by apply keeps_ret].
  - intros msg. apply keeps_bind; [done|apply R_cerr|intros _; by apply keeps_ret].
Qed.

Lemma objects_process T p sr params : keeps R (TorchWave2Wave.process T p sr params).
Proof.
  unfold TorchWave2Wave.process.
  apply keeps_lock_guard; [done|done|].
  apply keeps_bind; [done|apply keeps_deref, _|]. intros b.
  apply keeps_bind; [done|apply keeps_gets, _|]. intros h.
  destruct (TorchWave2Wave.marshal params) as [parameters parameters2].
  apply objects_pipeline.
Qed.

Lemma objects_earlier_process T p sr params : keeps R (Earlier.process T p sr params).
Proof.
  unfold Earlier.process.
  apply keeps_lock_guard; [done|done|].
  apply keeps_bind; [done|apply keeps_deref, _|]. intros b.
  apply keeps_bind; [done|apply keeps_gets, _|]. intros h.
  apply keeps_bind; [done|by apply keeps_lift|]. intros a.
  apply keeps_bind; [done|by apply keeps_lift|]. intros gain.
  apply keeps_bind; [done|apply keeps_with_m_model, _|]. intros card.
  apply keeps_bind; [done|by apply keeps_lift|]. intros _.
  apply objects_pipeline.
Qed.
End KeepsObjects.

Global Instance same_objects_preorder : PreOrder same_objects.
Proof.
  split.
  - by intros w.
  - intros w1 w2 w3 H1 H2. unfold same_objects in *. congruence.
Qed.

Lemma process_is_quiet T p sr params :
  keeps (extends_trace quiet) (TorchWave2Wave.process T p sr params).
Proof.
  apply objects_process; [apply _|..].
  - intros w h. by apply extends_trace_same.
  - intros w p0 b b' h _. by apply extends_trace_same.
  - intros name args. by apply keeps_emit.
  - intros line. by apply keeps_emit.
  - intros w b. by apply extends_trace_same.
Qed.

Lemma process_keeps_objects T p sr params :
  keeps same_objects (TorchWave2Wave.process T p sr params).
Proof.
  apply objects_process; [apply _|..]; try done.
  - intros w p0 b b' h Hb. unfold same_objects. cbn.
    rewrite dom_insert_L. apply subseteq_union_1_L, singleton_subseteq_l.
    by apply elem_of_dom_2 in Hb.
  - by intros name args w r w' [= _ <-].
  - by intros line w r w' [= _ <-].
Qed.

(** X5: when the graph's "resample" throws, the handler of [process]
    catches a thrown C string only: [process] then returns normally after
    one "Error processing audio: ..." line on [std::cerr]; every other
    exception leaves [process] as it came.  Either way "forward" is not
    called and memory, buffers and handle are as before the call. *)
Theorem process_catches_only_c_strings T p sr params w b m fr e :
  m_mutex (self w) = false -> buffers w !! p = Some b ->
  m_model (self w) = Some m -> methods m !! "resample" = Some fr ->
  fr [IVTensor (mean_dim0_keepdim T (TorchModel.to_tensor (heap w) b)); IVInt sr]
    = Thrown e ->
  ∃ w',
    TorchWave2Wave.process T p sr params w =
      (match e with CString _ => Normal tt | _ => Thrown e end, w') ∧
    heap w' = heap w ∧ buffers w' = buffers w ∧ self w' = self w ∧
    trace w' =
      (trace w ++
       Called "resample"
         [IVTensor (mean_dim0_keepdim T (TorchModel.to_tensor (heap w) b)); IVInt sr]
       :: match e with
          | CString msg => [Cerr ("Error processing audio: " +:+ msg)]
          | _ => []
          end)%list.
Proof.
  intros Hmx Hb Hm Hfr He.
  rewrite (process_lets_exceptions_through T p sr params w b m fr e) by done.
  destruct e; eexists; (split; [reflexivity|]); done.
Qed.

Lemma process_catches_only_c_strings_witness :
  let input := IVTensor (mean_dim0_keepdim demo_torch
                           (TorchModel.to_tensor (heap failing_world) (fst one_sample_buffer))) in
  ∃ w',
    TorchWave2Wave.process demo_torch 0%nat 44100 ∅ failing_world =
      (Thrown (C10Error "resample: shape mismatch"), w') ∧
    heap w' = heap failing_world ∧ buffers w' = buffers failing_world ∧
    self w' = self failing_world ∧
    trace w' = (trace failing_world ++ [Called "resample" [input; IVInt 44100]])%list.
Proof.
  intros input.
  apply (process_catches_only_c_strings demo_torch 0%nat 44100 ∅ failing_world
           (fst one_sample_buffer) (eval failing_graph)
           (fun _ => Thrown (C10Error "resample: shape mismatch"))
           (C10Error "resample: shape mismatch"));
    vm_compute; reflexivity.
Defined.

(** X6: on every outcome, [process] leaves the graph, the loaded-flag and
    the card as they were, fires no notification (what it adds to the trace
    are its calls of the graph and its [std::cerr] line), and neither
    creates nor destroys a buffer object; unless the program has died, the
    mutex is free again afterwards. *)
Theorem process_leaves_the_handle_alone T p sr params w r w' :
  TorchWave2Wave.process T p sr params w = (r, w') ->
  same_handle (self w) (self w') ∧
  (∃ evs, trace w' = (trace w ++ evs)%list ∧ ∀ e, e ∈ evs -> notification e = None) ∧
  dom (buffers w') = dom (buffers w) ∧
  (m_mutex (self w) = false -> (∀ f, r ≠ Fatal f) -> m_mutex (self w') = false).
Proof.
  intros H. split; [by apply process_keeps_handle in H|]. split; [|split].
  - apply process_is_quiet in H as (evs & E & F). exists evs. split; [done|].
    by apply Forall_forall.
  - by apply process_keeps_objects in H.
  - intros Hmx Hr. by eapply process_releases_mutex.
Qed.

Lemma process_leaves_the_handle_alone_witness :
  let run := TorchWave2Wave.process demo_torch 0%nat 44100 gain_params loaded_world in
  same_handle (self loaded_world) (self (snd run)) ∧
  (∃ evs, trace (snd run) = (trace loaded_world ++ evs)%list ∧
          ∀ e, e ∈ evs -> notification e = None) ∧
  dom (buffers (snd run)) = dom (buffers loaded_world) ∧
  (m_mutex (self loaded_world) = false -> (∀ f, fst run ≠ Fatal f) ->
   m_mutex (self (snd run)) = false).
Proof.
  intros run.
  apply (process_leaves_the_handle_alone demo_torch 0%nat 44100 gain_params loaded_world
           (fst run) (snd run)).
  apply surjective_pairing.
Defined.

(** *** More on [load] *)

Lemma push_tags_run tl : ∀ w,
  for_each (IVString <$> tl)
    (fun tag => s <- lift (toStringRef tag) ;; update_card (tags_push_back s)) w
  = (Normal tt,
     with_self (fun t => set_m_card (set_tags (tags (m_card t) ++ tl) (m_card t)) t) w).
Proof.
  induction tl as [|s tl IH]; intros w.
  - cbn. unfold ret. f_equal. destruct w as [[? ? [] ?] ? ? ?].
    unfold with_self, set_m_card, set_tags. cbn. by rewrite app_nil_r.
  - cbn [fmap list_fmap for_each]. unfold bind at 1. unfold bind at 1, lift at 1.
    cbn [toStringRef]. unfold update_card at 1, modify at 1. rewrite IH.
    f_equal. destruct w as [[? ? [] ?] ? ? ?].
    unfold with_self, set_m_card, tags_push_back, set_tags. cbn.
    by rewrite <- app_assoc.
Qed.

(** The converse of [populate_card_Normal_inv]. *)
Lemma populate_card_run pycard c w :
  card_read_from pycard (tags (m_card (self w))) c ->
  TorchModel.populate_card pycard w = (Normal tt, with_self (set_m_card c) w).
Proof.
  intros (Hn & Hd & Ha & Hr & tl & Ht & Htags).
  unfold TorchModel.populate_card, bind, lift, getAttr, update_card, modify.
  rewrite Hn, Hd, Ha, Hr, Ht. cbn [toStringRef toInt toListRef].
  rewrite push_tags_run. f_equal.
  destruct w as [[? ? [] ?] ? ? ?], c. cbn in *. subst.
  reflexivity.
Qed.

(** The converse of [load_true_inv]: what suffices for [load] to succeed. *)
Lemma load_succeeds T params w path m pycard c :
  params !! "modelPath" = Some (AnyString path) ->
  jit_load T path = Normal m ->
  attributes m !! "model_card" = Some (IVObject pycard) ->
  card_read_from pycard (tags (m_card (self w))) c ->
  m_mutex (self w) = false ->
  TorchModel.load T params w =
    (Normal true,
     {| self := {| m_model := Some (eval m); m_loaded := true;
                   m_card := c; m_mutex := false |};
        trace := trace w ++ [Cout "Loading model";
                             ChangeMessage (m_card (self w));
                             ModelCardLoaded c];
        heap := heap w; buffers := buffers w |}).
Proof.
  intros Hk Hj Hc Hr Hmx.
  unfold TorchModel.load, bind at 1, emit at 1, modify at 1, lock_guard.
  cbn [self]. rewrite Hmx.
  unfold contains, map_at. rewrite Hk. rewrite bool_decide_eq_true_2 by eauto.
  cbn [negb]. unfold bind at 1, lift at 1, bind at 1, lift at 1. cbn [any_cast_string].
  unfold try_catch_cstr.
  unfold bind at 1, lift at 1. rewrite Hj.
  unfold bind at 1, modify at 1. unfold bind at 1, with_m_model at 1.
  cbn [self with_self m_model set_m_model].
  unfold bind at 1, modify at 1. unfold bind at 1, modify at 1.
  unfold bind at 1, sendChangeMessage, bind at 1, gets at 1, emit at 1, modify at 1.
  unfold bind at 1, with_m_model at 1.
  cbn [self with_self m_model set_m_model set_m_loaded eval attributes].
  unfold getAttr. rewrite Hc.
  unfold bind at 1, lift at 1. cbn [toObject].
  unfold bind at 1.
  erewrite populate_card_run by (cbn; exact Hr).
  unfold bind, broadcastModelCardLoaded, gets, emit, modify, ret. cbn.
  destruct w as [[? ? ? ?] ? ? ?]. cbn in *. by rewrite <- !app_assoc.
Qed.

(** X7: [load] appends the graph's tags to [m_card.tags] and never clears
    them: after a successful [load], loading the same model again succeeds
    again and leaves every tag of the graph in the card twice, the other
    fields of the card being as after the first [load]. *)
Theorem reload_duplicates_tags T params w w1 :
  TorchModel.load T params w = (Normal true, w1) ->
  ∃ tl w2,
    tags (m_card (self w1)) = (tags (m_card (self w)) ++ tl)%list ∧
    TorchModel.load T params w1 = (Normal true, w2) ∧
    tags (m_card (self w2)) = (tags (m_card (self w)) ++ tl ++ tl)%list ∧
    name (m_card (self w2)) = name (m_card (self w1)) ∧
    description (m_card (self w2)) = description (m_card (self w1)) ∧
    author (m_card (self w2)) = author (m_card (self w1)) ∧
    sampleRate (m_card (self w2)) = sampleRate (m_card (self w1)).
Proof.
  intros H.
  apply load_true_inv in H as (path & m & pycard & c & Hk & Hj & Hc & Hr & Hmx & ->).
  destruct Hr as (Hn & Hd & Ha & Hs & tl & Ht & Htags).
  exists tl. eexists. split; [exact Htags|]. split.
  - apply (load_succeeds T params _ path m pycard (set_tags (tags c ++ tl) c));
      [done..| |done].
    cbn. repeat (split; [done|]). by exists tl.
  - cbn. rewrite Htags, <- app_assoc. done.
Qed.

Lemma reload_duplicates_tags_witness :
  ∃ tl w2,
    tags (m_card (self loaded_world)) = (tags (m_card (self fresh_world)) ++ tl)%list ∧
    TorchModel.load demo_torch valid_params loaded_world = (Normal true, w2) ∧
    tags (m_card (self w2)) = (tags (m_card (self fresh_world)) ++ tl ++ tl)%list ∧
    name (m_card (self w2)) = name (m_card (self loaded_world)) ∧
    description (m_card (self w2)) = description (m_card (self loaded_world)) ∧
    author (m_card (self w2)) = author (m_card (self loaded_world)) ∧
    sampleRate (m_card (self w2)) = sampleRate (m_card (self loaded_world)).
Proof.
  apply (reload_duplicates_tags demo_torch valid_params fresh_world loaded_world).
  apply run_eq. vm_compute. reflexivity.
Defined.

(** X8: a "modelPath" that does not hold a string makes [load] throw
    [std::bad_any_cast]: the cast is before the [try] block.  Nothing is
    loaded and nothing reported: the handle is as before and the only
    output is the line "Loading model". *)
Theorem load_throws_on_path_of_other_type T params w a :
  params !! "modelPath" = Some a -> (∀ s, a ≠ AnyString s) ->
  m_mutex (self w) = false ->
  TorchModel.load T params w =
    (Thrown BadAnyCast,
     {| self := self w; trace := trace w ++ [Cout "Loading model"];
        heap := heap w; buffers := buffers w |}).
Proof.
  intros Hk Ha Hmx.
  unfold TorchModel.load, bind, emit, modify, lock_guard, contains, ret, lift, map_at.
  cbn. rewrite Hmx, Hk. rewrite bool_decide_eq_true_2 by eauto. cbn.
  destruct w as [[? ? ? ?] ? ? ?]. cbn in *. subst.
  destruct a; try done. by destruct (Ha s).
Qed.

Lemma load_throws_on_path_of_other_type_witness :
  TorchModel.load demo_torch {[ "modelPath" := AnyInt 7 ]} fresh_world =
    (Thrown BadAnyCast,
     {| self := self fresh_world; trace := trace fresh_world ++ [Cout "Loading model"];
        heap := heap fresh_world; buffers := buffers fresh_world |}).
Proof.
  apply (load_throws_on_path_of_other_type demo_torch {[ "modelPath" := AnyInt 7 ]}
           fresh_world (AnyInt 7)); [reflexivity|discriminate|reflexivity].
Defined.

(** X9: when [torch::jit::load] throws, the handler of [load] catches a
    thrown C string only: [load] then returns false after two lines on
    [std::cerr]; every other exception, [c10::Error] among them, leaves
    [load] as it came.  Either way the handle is as before the call. *)
Theorem load_catches_only_c_strings T params w path e :
  params !! "modelPath" = Some (AnyString path) -> jit_load T path = Thrown e ->
  m_mutex (self w) = false ->
  TorchModel.load T params w =
    (match e with CString _ => Normal false | _ => Thrown e end,
     {| self := self w;
        trace := trace w ++ Cout "Loading model" ::
                 match e with
                 | CString msg => [Cerr "Error loading the model"; Cerr msg]
                 | _ => []
                 end;
        heap := heap w; buffers := buffers w |}).
Proof.
  intros Hk Hj Hmx.
  unfold TorchModel.load, bind, emit, modify, lock_guard, contains, ret, lift, map_at,
    try_catch_cstr.
  cbn. rewrite Hmx, Hk. rewrite bool_decide_eq_true_2 by eauto. cbn. rewrite Hj.
  destruct w as [[? ? ? ?] ? ? ?]. cbn in *. subst.
  destruct e; cbn; try done. by rewrite <- !app_assoc.
Qed.

Lemma load_catches_only_c_strings_witness :
  TorchModel.load demo_torch missing_params fresh_world =
    (Thrown (C10Error "open file failed"),
     {| self := self fresh_world;
        trace := trace fresh_world ++ [Cout "Loading model"];
        heap := heap fresh_world; buffers := buffers fresh_world |}).
Proof.
  apply (load_catches_only_c_strings demo_torch missing_params fresh_world
           "missing.model" (C10Error "open file failed")); reflexivity.
Defined.

(** X10: from the moment [torch::jit::load] has returned a graph, [load]
    has committed it: however the rest of the call ends (a result, an
    exception from reading the card), the handle holds the new graph in
    evaluation mode, [ready()] is true, and the change message, showing the
    card as it was before the call, has been sent. *)
Theorem load_commits_graph_before_reading_card T params w path m r w' :
  params !! "modelPath" = Some (AnyString path) -> jit_load T path = Normal m ->
  m_mutex (self w) = false ->
  TorchModel.load T params w = (r, w') ->
  m_model (self w') = Some (eval m) ∧
  TorchModel.ready (self w') = true ∧
  ∃ evs, trace w' =
         (trace w ++ Cout "Loading model" :: ChangeMessage (m_card (self w)) :: evs)%list.
Proof. apply load_with_graph. Qed.

Lemma load_commits_graph_before_reading_card_witness :
  let run := TorchModel.load demo_torch cardless_params fresh_world in
  fst run = Thrown (C10Error "no attribute model_card") ∧
  m_model (self (snd run)) = Some (eval cardless_graph) ∧
  TorchModel.ready (self (snd run)) = true ∧
  ∃ evs, trace (snd run) =
         (trace fresh_world ++
          Cout "Loading model" :: ChangeMessage (m_card (self fresh_world)) :: evs)%list.
Proof.
  intros run. split; [vm_compute; reflexivity|].
  apply (load_commits_graph_before_reading_card demo_torch cardless_params fresh_world
           "cardless.model" cardless_graph (fst run) (snd run));
    [reflexivity|reflexivity|reflexivity|apply surjective_pairing].
Defined.

(** X11: the card is written field by field, in place.  When the graph's
    card declares a name but no description of string type, [load] ends with
    a [c10::Error] after the name has been written: the card holds the new
    name beside the old description, author, sample rate and tags, and the
    model-card broadcast is not fired. *)
Theorem failed_card_read_keeps_fields_read_so_far T params w path m pycard n :
  params !! "modelPath" = Some (AnyString path) -> jit_load T path = Normal m ->
  attributes m !! "model_card" = Some (IVObject pycard) ->
  pycard !! "name" = Some (IVString n) ->
  (∀ s, pycard !! "description" ≠ Some (IVString s)) ->
  m_mutex (self w) = false ->
  ∃ msg,
    TorchModel.load T params w =
      (Thrown (C10Error msg),
       {| self := {| m_model := Some (eval m); m_loaded := true;
                     m_card := set_name n (m_card (self w)); m_mutex := false |};
          trace := trace w ++ [Cout "Loading model"; ChangeMessage (m_card (self w))];
          heap := heap w; buffers := buffers w |}).
Proof.
  intros Hk Hj Hc Hn Hd Hmx.
  unfold TorchModel.load, bind at 1, emit at 1, modify at 1, lock_guard.
  cbn [self]. rewrite Hmx.
  unfold contains, map_at. rewrite Hk. rewrite bool_decide_eq_true_2 by eauto.
  cbn [negb]. unfold bind at 1, lift at 1, bind at 1, lift at 1. cbn [any_cast_string].
  unfold try_catch_cstr.
  unfold bind at 1, lift at 1. rewrite Hj.
  unfold bind at 1, modify at 1. unfold bind at 1, with_m_model at 1.
  cbn [self with_self m_model set_m_model].
  unfold bind at 1, modify at 1. unfold bind at 1, modify at 1.
  unfold bind at 1, sendChangeMessage, bind at 1, gets at 1, emit at 1, modify at 1.
  unfold bind at 1, with_m_model at 1.
  cbn [self with_self m_model set_m_model set_m_loaded eval attributes].
  unfold getAttr at 1. rewrite Hc.
  unfold bind at 1, lift at 1. cbn [toObject].
  unfold TorchModel.populate_card, bind, lift, getAttr, update_card, modify.
  rewrite Hn. cbn [toStringRef].
  destruct w as [[? ? ? ?] ? ? ?]. cbn in Hmx |- *. subst.
  destruct (pycard !! "description") as [v|] eqn:Hv; cbn.
  - destruct v as [ | | | |s| | | ]; try by destruct (Hd s).
    all: cbn; eexists; by rewrite <- !app_assoc.
  - eexists. by rewrite <- !app_assoc.
Qed.

Lemma failed_card_read_keeps_fields_read_so_far_witness :
  ∃ msg,
    TorchModel.load half_card_torch valid_params loaded_world =
      (Thrown (C10Error msg),
       {| self := {| m_model := Some (eval half_card_graph); m_loaded := true;
                     m_card := set_name "half" (m_card (self loaded_world));
                     m_mutex := false |};
          trace := trace loaded_world ++
                   [Cout "Loading model"; ChangeMessage (m_card (self loaded_world))];
          heap := heap loaded_world; buffers := buffers loaded_world |}).
Proof.
  apply (failed_card_read_keeps_fields_read_so_far half_card_torch valid_params
           loaded_world "valid.model" half_card_graph {[ "name" := IVString "half" ]} "half");
    [reflexivity|reflexivity|reflexivity|reflexivity| |reflexivity].
  intros s Hs. vm_compute in Hs. discriminate Hs.
Defined.

(** X12: [process] acts on a parameter map as on the map of the doubles its
    loop computes: whether a value was an [int], a [float], a [bool] or a
    [double] makes no difference beyond that number, and a string or a value
    of another type acts as the double 0.0.  The dictionary [parameters2],
    the only place a string is kept, has no effect. *)
Theorem process_sees_only_the_doubles T p sr params :
  TorchWave2Wave.process T p sr params =
  TorchWave2Wave.process T p sr ((fun v => AnyDouble (valueAsDouble v)) <$> params).
Proof.
  apply process_uses_doubles_only. intros key.
  rewrite lookup_fmap. by destruct (params !! key).
Qed.

(** *** The earlier variant (src/unnamed/part_000) *)

Lemma keeps_lift_bind {S A B} (R : relation S) `{!PreOrder R}
    (o : outcome A) (k : A -> M S B) :
  (∀ a, o = Normal a -> keeps R (k a)) -> keeps R (bind (lift o) k).
Proof.
  intros Hk s r s'. unfold bind, lift.
  destruct o as [a|e|f]; [by apply Hk| |]; by intros [= _ <-].
Qed.

(** X13: the earlier [load] has the handler the later one lacks: when
    [torch::jit::load] throws a [c10::Error], [load] returns false after two
    lines on [std::cerr], the second being the error's message; any other
    exception passes.  Either way the handle is as before the call and the
    callback is not run. *)
Theorem earlier_load_catches_c10_error T cb params w path e :
  params !! "modelPath" = Some (AnyString path) -> jit_load T path = Thrown e ->
  m_mutex (self w) = false ->
  EarlierTorchModel.load T cb params w =
    (match e with C10Error _ => Normal false | _ => Thrown e end,
     {| self := self w;
        trace := trace w ++ Cout "Loading model" ::
                 match e with
                 | C10Error what => [Cerr "Error loading the model"; Cerr what]
                 | _ => []
                 end;
        heap := heap w; buffers := buffers w |}).
Proof.
  intros Hk Hj Hmx.
  unfold EarlierTorchModel.load, bind, emit, modify, lock_guard, contains, ret, lift,
    map_at, try_catch_c10.
  cbn. rewrite Hmx, Hk. rewrite bool_decide_eq_true_2 by eauto. cbn. rewrite Hj.
  destruct w as [[? ? ? ?] ? ? ?]. cbn in *. subst.
  destruct e; cbn; try done. by rewrite <- !app_assoc.
Qed.

Lemma earlier_load_catches_c10_error_witness :
  EarlierTorchModel.load demo_torch None missing_params fresh_world =
    (Normal false,
     {| self := self fresh_world;
        trace := trace fresh_world ++
                 [Cout "Loading model"; Cerr "Error loading the model";
                  Cerr "open file failed"];
        heap := heap fresh_world; buffers := buffers fresh_world |}).
Proof.
  apply (earlier_load_catches_c10_error demo_torch None missing_params fresh_world
           "missing.model" (C10Error "open file failed")); reflexivity.
Defined.

(** X14: the earlier [load] calls [editorsWidgetCreationCallback] while it
    holds the mutex, after the graph is stored and the loaded-flag set.  A
    callback that calls back into the handle, be it [process] or [load],
    therefore never returns: it blocks on the mutex its caller holds. *)
Theorem earlier_load_deadlocks_on_reentrant_callback T params w path m :
  params !! "modelPath" = Some (AnyString path) -> jit_load T path = Normal m ->
  m_mutex (self w) = false ->
  (∀ p sr ps,
     fst (EarlierTorchModel.load T (Some (fun _ => Earlier.process T p sr ps)) params w)
       = Fatal Deadlock) ∧
  (∀ cb params',
     fst (EarlierTorchModel.load T
            (Some (fun _ => EarlierTorchModel.load T cb params' ;; ret tt)) params w)
       = Fatal Deadlock).
Proof.
  intros Hk Hj Hmx. split; intros.
  - unfold EarlierTorchModel.load at 1, Earlier.process,
      bind, emit, modify, lock_guard, contains, ret, lift, map_at, try_catch_c10,
      with_m_model, call_function.
    cbn. rewrite Hmx, Hk. rewrite bool_decide_eq_true_2 by eauto. cbn. by rewrite Hj.
  - unfold EarlierTorchModel.load,
      bind, emit, modify, lock_guard, contains, ret, lift, map_at, try_catch_c10,
      with_m_model, call_function.
    cbn. rewrite Hmx, Hk. rewrite bool_decide_eq_true_2 by eauto. cbn. by rewrite Hj.
Qed.

Lemma earlier_load_deadlocks_on_reentrant_callback_witness :
  (∀ p sr ps,
     fst (EarlierTorchModel.load demo_torch (Some (fun _ => Earlier.process demo_torch p sr ps))
            valid_params fresh_world)
       = Fatal Deadlock) ∧
  (∀ cb params',
     fst (EarlierTorchModel.load demo_torch
            (Some (fun _ => EarlierTorchModel.load demo_torch cb params' ;; ret tt))
            valid_params fresh_world)
       = Fatal Deadlock).
Proof.
  apply (earlier_load_deadlocks_on_reentrant_callback demo_torch valid_params fresh_world
           "valid.model" demo_graph); reflexivity.
Defined.

(** X15: with no callback set, the earlier [load] of a model that
    deserialises throws [std::bad_function_call], which its handler for
    [c10::Error] does not catch; by then the graph is stored and [ready()]
    is true. *)
Theorem earlier_load_without_callback_throws T params w path m :
  params !! "modelPath" = Some (AnyString path) -> jit_load T path = Normal m ->
  m_mutex (self w) = false ->
  EarlierTorchModel.load T None params w =
    (Thrown (StdException "bad_function_call"),
     {| self := {| m_model := Some (eval m); m_loaded := true;
                   m_card := m_card (self w); m_mutex := false |};
        trace := trace w ++ [Cout "Loading model"];
        heap := heap w; buffers := buffers w |}).
Proof.
  intros Hk Hj Hmx.
  unfold EarlierTorchModel.load, bind, emit, modify, lock_guard, contains, ret, lift,
    map_at, try_catch_c10, with_m_model, call_function, throw.
  cbn. rewrite Hmx, Hk. rewrite bool_decide_eq_true_2 by eauto. cbn. by rewrite Hj.
Qed.

Lemma earlier_load_without_callback_throws_witness :
  EarlierTorchModel.load demo_torch None valid_params fresh_world =
    (Thrown (StdException "bad_function_call"),
     {| self := {| m_model := Some (eval demo_graph); m_loaded := true;
                   m_card := m_card (self fresh_world); m_mutex := false |};
        trace := trace fresh_world ++ [Cout "Loading model"];
        heap := heap fresh_world; buffers := buffers fresh_world |}).
Proof.
  apply (earlier_load_without_callback_throws demo_torch valid_params fresh_world
           "valid.model" demo_graph); reflexivity.
Defined.

(** X16: the earlier [process] needs a [double] under the key "A": without
    the key [params.at] throws, with a value of another type [any_cast]
    throws.  Both are before the [try] block and before the graph is
    touched: the exception leaves [process] and the state is as before. *)
Theorem earlier_process_needs_a_double_under_A T p sr params w b :
  m_mutex (self w) = false -> buffers w !! p = Some b ->
  (∀ d, params !! "A" ≠ Some (AnyDouble d)) ->
  Earlier.process T p sr params w =
    (Thrown match params !! "A" with
            | Some _ => BadAnyCast
            | None => StdException "map::at"
            end, w).
Proof.
  intros Hmx Hb Hd.
  unfold Earlier.process, lock_guard. rewrite Hmx.
  unfold bind at 1. unfold deref at 1. cbn [buffers with_self]. rewrite Hb.
  unfold bind at 1. unfold gets at 1.
  unfold bind at 1, lift at 1, map_at.
  destruct w as [[? ? ? ?] ? ? ?]. cbn in Hmx |- *. subst.
  destruct (params !! "A") as [a|]; [|done].
  unfold bind at 1, lift at 1.
  destruct a; try done. by destruct (Hd d).
Qed.

Lemma earlier_process_needs_a_double_under_A_witness :
  Earlier.process demo_torch 0%nat 44100 gain_params loaded_world =
    (Thrown (StdException "map::at"), loaded_world).
Proof.
  apply (earlier_process_needs_a_double_under_A demo_torch 0%nat 44100 gain_params
           loaded_world (fst one_sample_buffer)); [reflexivity|reflexivity|].
  intros d Hd. vm_compute in Hd. discriminate Hd.
Defined.

Lemma earlier_process_emits T p sr params :
  keeps (extends_trace
           (fun e => ∀ args, e = Called "forward" args ->
              ∃ resampled d,
                params !! "A" = Some (AnyDouble d) ∧
                args = [IVTensor resampled;
                        IVTensorDict {[ "gain" := torch_tensor [d] ]}]))
        (Earlier.process T p sr params).
Proof.
  unfold Earlier.process.
  apply keeps_lock_guard; [apply _| |].
  { intros w b. by apply extends_trace_same. }
  apply keeps_bind; [apply _|apply keeps_deref, _|]. intros b.
  apply keeps_bind; [apply _|apply keeps_gets, _|]. intros h.
  apply keeps_lift_bind; [apply _|]. intros a Ha.
  apply keeps_lift_bind; [apply _|]. intros gain Hg.
  destruct a; try discriminate. injection Hg as ->.
  unfold map_at in Ha. destruct (params !! "A") as [a|] eqn:HA; [|discriminate].
  injection Ha as ->.
  apply keeps_bind; [apply _|apply keeps_with_m_model, _|]. intros card.
  apply keeps_bind; [apply _|apply keeps_lift, _|]. intros _.
  apply keeps_try_catch_cstr; [apply _| |].
  - apply keeps_bind; [apply _| |].
    { apply keeps_invoke_of; [apply _|]. apply keeps_emit. by intros args [=]. }
    intros r. apply keeps_bind; [apply _|apply keeps_lift, _|]. intros resampled.
    apply keeps_bind; [apply _| |].
    { apply keeps_invoke_of; [apply _|]. apply keeps_emit. intros args [= <-].
      exists resampled, gain. split; [done|].
      rewrite dict_insert_fresh by done. by rewrite insert_empty. }
    intros o. apply keeps_bind; [apply _|apply keeps_lift, _|]. intros output.
    apply keeps_bind; [apply _| |intros ?; apply keeps_ret, _].
    apply keeps_to_buffer; [apply _|]. intros w w' Ht _. by apply extends_trace_same.
  - intros msg. apply keeps_bind; [apply _| |intros _; apply keeps_ret, _].
    apply keeps_emit. by intros args [=].
Qed.

(** X17: the earlier [process] passes one parameter on, whatever the map
    holds: whenever it calls the graph's "forward", the second argument is
    the dictionary with the single key "gain", whose tensor holds the double
    found under "A" in [params]. *)
Theorem earlier_process_forwards_gain_only T p sr params w r w' :
  Earlier.process T p sr params w = (r, w') ->
  ∃ evs, trace w' = (trace w ++ evs)%list ∧
    ∀ args, Called "forward" args ∈ evs ->
      ∃ resampled d,
        params !! "A" = Some (AnyDouble d) ∧
        args = [IVTensor resampled; IVTensorDict {[ "gain" := torch_tensor [d] ]}].
Proof.
  intros H. apply earlier_process_emits in H as (evs & E & F).
  exists evs. split; [done|]. intros args Hin.
  rewrite Forall_forall in F. by apply (F _ Hin).
Qed.

Lemma earlier_process_forwards_gain_only_witness :
  let params : gmap string any :=
    {[ "A" := AnyDouble (S754_finite false 4503599627370496 (-53));
       "B" := AnyDouble (S754_zero false) ]} in
  let run := Earlier.process demo_torch 0%nat 44100 params loaded_world in
  fst run = Normal tt ∧
  ∃ evs, trace (snd run) = (trace loaded_world ++ evs)%list ∧
    ∀ args, Called "forward" args ∈ evs ->
      ∃ resampled d,
        params !! "A" = Some (AnyDouble d) ∧
        args = [IVTensor resampled; IVTensorDict {[ "gain" := torch_tensor [d] ]}].
Proof.
  intros params run. split; [vm_compute; reflexivity|].
  apply (earlier_process_forwards_gain_only demo_torch 0%nat 44100 params loaded_world
           (fst run) (snd run)).
  apply surjective_pairing.
Defined.

(** X18: like the later one, the earlier [process] leaves graph,
    loaded-flag and card as they were on every outcome, fires no
    notification and neither creates nor destroys a buffer object. *)
Theorem earlier_process_leaves_the_handle_alone T p sr params w r w' :
  Earlier.process T p sr params w = (r, w') ->
  same_handle (self w) (self w') ∧
  (∃ evs, trace w' = (trace w ++ evs)%list ∧ ∀ e, e ∈ evs -> notification e = None) ∧
  dom (buffers w') = dom (buffers w).
Proof.
  intros H. split; [|split].
  - revert H. apply (objects_earlier_process handle_kept); try done.
    + by intros name args ? ? ? [= _ <-].
    + by intros line ? ? ? [= _ <-].
  - assert (extends_trace quiet w w') as (evs & E & F).
    { revert H. apply objects_earlier_process; [apply _|..].
      - intros w0 h. by apply extends_trace_same.
      - intros w0 p0 b b' h _. by apply extends_trace_same.
      - intros name args. by apply keeps_emit.
      - intros line. by apply keeps_emit.
      - intros w0 b. by apply extends_trace_same. }
    exists evs. split; [done|]. by apply Forall_forall.
  - revert H. apply (objects_earlier_process same_objects); try done.
    + intros w0 p0 b b' h Hb. unfold same_objects. cbn.
      rewrite dom_insert_L. apply subseteq_union_1_L, singleton_subseteq_l.
      by apply elem_of_dom_2 in Hb.
    + by intros name args ? ? ? [= _ <-].
    + by intros line ? ? ? [= _ <-].
Qed.

Lemma earlier_process_leaves_the_handle_alone_witness :
  let run := Earlier.process demo_torch 0%nat 44100
               {[ "A" := AnyDouble (S754_zero false) ]} loaded_world in
  same_handle (self loaded_world) (self (snd run)) ∧
  (∃ evs, trace (snd run) = (trace loaded_world ++ evs)%list ∧
          ∀ e, e ∈ evs -> notification e = None) ∧
  dom (buffers (snd run)) = dom (buffers loaded_world).
Proof.
  intros run.
  apply (earlier_process_leaves_the_handle_alone demo_torch 0%nat 44100
           {[ "A" := AnyDouble (S754_zero false) ]} loaded_world (fst run) (snd run)).
  apply surjective_pairing.
Defined.

(** *** The caller, [AudioModification] *)

(** What a run of [AudioModification::process] past its two gates
    consists of. *)
Lemma am_process_inv T params s r s' :
  TorchModel.ready (self (world s)) = true ->
  isValid (mAudioSourceReader (am s)) = true ->
  AudioModification.process T params s = (r, s') ->
  let p := fresh (dom (buffers (world s))) in
  ∃ w2 b,
    buffers w2 =
      <[p := b]> (match mAudioBuffer (am s) with
                  | Some old => delete old (buffers (world s))
                  | None => buffers (world s)
                  end) ∧
    self w2 = self (world s) ∧ trace w2 = trace (world s) ∧
    TorchWave2Wave.process T p (mSampleRate (am s)) params w2 = (r, world s') ∧
    mAudioSourceReader (am s') = mAudioSourceReader (am s) ∧
    mSampleRate (am s') = mSampleRate (am s) ∧
    mAudioBuffer (am s') = Some p ∧
    mIsModified (am s') =
      match r with Normal _ => true | _ => mIsModified (am s) end ∧
    let fresh_buffer :=
      AudioBuffer_new (to_int (reader_numChannels (mAudioSourceReader (am s))))
                      (to_int (lengthInSamples (mAudioSourceReader (am s))))
                      (heap (world s)) in
    b = fst fresh_buffer ∧
    heap w2 = read (mAudioSourceReader (am s)) b
                   (to_int (lengthInSamples (mAudioSourceReader (am s))))
                   (snd fresh_buffer).
Proof.
  intros Hr Hv H p.
  unfold AudioModification.process, bind at 1, get at 1 in H.
  rewrite Hr, Hv in H. cbn [negb] in H.
  unfold bind at 1, AudioModification.reset_mAudioBuffer at 1, modify at 1 in H.
  fold p in H.
  destruct (AudioBuffer_new _ _ (heap (world s))) as [b h] eqn:Hnew.
  unfold bind at 1, AudioModification.mAudioBuffer_get at 1 in H. cbn [am mAudioBuffer] in H.
  unfold bind at 1, on_world at 1, bind at 1, deref at 1 in H.
  cbn [world buffers] in H. rewrite lookup_insert_eq in H.
  unfold bind at 1, gets at 1, set_heap at 1, modify at 1 in H.
  cbn [world buffers heap self trace am] in H.
  unfold bind at 1, on_world at 1 in H. cbn [world am mSampleRate] in H.
  match type of H with context [TorchWave2Wave.process _ _ _ _ ?w] =>
    exists w, b; destruct (TorchWave2Wave.process T p (mSampleRate (am s)) params w)
      as [r0 w3] eqn:Hp
  end.
  cbn [buffers self trace heap].
  split; [done|]. split; [done|]. split; [done|].
  destruct r0 as [[]|e|f]; inversion H; subst; cbn; done.
Qed.



(** X20: past its two gates, [AudioModification::process] replaces the
    modified buffer before it calls the model, and sets [mIsModified] only
    after the model has returned.  So however the call ends, the buffer
    object that [getModifiedAudioBuffer()] pointed at is destroyed and a
    different one, which exists, is in its place; and when the model throws,
    [getIsModified()] answers as before the call. *)
Theorem process_replaces_the_modified_buffer T params s r s' old :
  TorchModel.ready (self (world s)) = true ->
  isValid (mAudioSourceReader (am s)) = true ->
  getModifiedAudioBuffer (am s) = Some old ->
  is_Some (buffers (world s) !! old) ->
  AudioModification.process T params s = (r, s') ->
  buffers (world s') !! old = None ∧
  (∃ p, getModifiedAudioBuffer (am s') = Some p ∧ p ≠ old ∧
        is_Some (buffers (world s') !! p)) ∧
  getIsModified (am s') = match r with Normal _ => true | _ => getIsModified (am s) end.
Proof.
  intros Hr Hv Hold Hex H.
  apply am_process_inv in H as (w2 & b & Hb & _ & _ & Hp & _ & _ & Hbuf & Hmod & _); [|done..].
  unfold getModifiedAudioBuffer in Hold. rewrite Hold in Hb.
  apply process_keeps_objects in Hp. unfold same_objects in Hp.
  assert (fresh (dom (buffers (world s))) ≠ old) as Hne.
  { intros Heq. apply elem_of_dom in Hex. rewrite <- Heq in Hex.
    by apply is_fresh in Hex. }
  split; [|split].
  - apply not_elem_of_dom. rewrite Hp, Hb, dom_insert_L, dom_delete_L.
    intros [Hin|Hin]%elem_of_union.
    + apply elem_of_singleton in Hin. by destruct Hne.
    + apply elem_of_difference in Hin as [_ Hin]. apply Hin. by apply elem_of_singleton.
  - eexists. split; [exact Hbuf|]. split; [exact Hne|].
    apply elem_of_dom. rewrite Hp, Hb, dom_insert_L. apply elem_of_union_l.
    by apply elem_of_singleton.
  - exact Hmod.
Qed.

Lemma process_replaces_the_modified_buffer_witness :
  let run := AudioModification.process demo_torch gain_params modified_session in
  fst run = Thrown (C10Error "resample: shape mismatch") ∧
  buffers (world (snd run)) !! 0%nat = None ∧
  (∃ p, getModifiedAudioBuffer (am (snd run)) = Some p ∧ p ≠ 0%nat ∧
        is_Some (buffers (world (snd run)) !! p)) ∧
  getIsModified (am (snd run)) =
    match fst run with Normal _ => true | _ => getIsModified (am modified_session) end.
Proof.
  intros run. split; [vm_compute; reflexivity|].
  apply (process_replaces_the_modified_buffer demo_torch gain_params modified_session
           (fst run) (snd run) 0%nat);
    [reflexivity|reflexivity|reflexivity|by eexists|apply surjective_pairing].
Defined.

(** X21: with an audio source reader that is not valid,
    [AudioModification::process] does nothing at all, whether or not a
    model is loaded: no buffer is created, the model is not called,
    [mIsModified] is not set. *)
Theorem invalid_reader_is_a_no_op T params s :
  isValid (mAudioSourceReader (am s)) = false ->
  AudioModification.process T params s = (Normal tt, s).
Proof.
  intros Hv. unfold AudioModification.process, bind, get. rewrite Hv.
  by destruct (TorchModel.ready _).
Qed.

Lemma invalid_reader_is_a_no_op_witness :
  TorchModel.ready (self (world invalid_session)) = true ∧
  AudioModification.process demo_torch gain_params invalid_session
    = (Normal tt, invalid_session).
Proof.
  split; [reflexivity|].
  apply (invalid_reader_is_a_no_op demo_torch gain_params invalid_session).
  reflexivity.
Defined.

(** X22: [AudioModification::load] drops what the handle's [load] returns,
    so a caller cannot tell a failed load; but a [process] that follows a
    load which failed before a graph was deserialised, on a handle that was
    not ready, does nothing: the gate of [process] still sees [ready()]
    false. *)
Theorem process_after_failed_load_is_a_no_op T params ps s r s1 :
  TorchModel.ready (self (world s)) = false ->
  (∀ path m, params !! "modelPath" = Some (AnyString path) -> jit_load T path ≠ Normal m) ->
  AudioModification_load T params s = (r, s1) ->
  am s1 = am s ∧ AudioModification.process T ps s1 = (Normal tt, s1).
Proof.
  intros Hr Hno H.
  unfold AudioModification_load, bind, on_world, ret in H.
  destruct (TorchModel.load T params (world s)) as [r0 w1] eqn:Hl.
  apply load_without_graph in Hl as (_ & (_ & Hloaded & _) & _); [|done].
  assert (s1 = {| am := am s; world := w1 |}) as ->
    by (destruct r0; by injection H as _ <-).
  split; [done|].
  unfold AudioModification.process, bind, get, TorchModel.ready. cbn [world].
  unfold TorchModel.ready in Hr. by rewrite Hloaded, Hr.
Qed.

Lemma process_after_failed_load_is_a_no_op_witness :
  let run := AudioModification_load demo_torch missing_params fresh_session in
  fst run = Thrown (C10Error "open file failed") ∧
  am (snd run) = am fresh_session ∧
  AudioModification.process demo_torch gain_params (snd run) = (Normal tt, snd run).
Proof.
  intros run. split; [vm_compute; reflexivity|].
  apply (process_after_failed_load_is_a_no_op demo_torch missing_params gain_params
           fresh_session (fst run) (snd run));
    [reflexivity| |apply surjective_pairing].
  intros path m Hk Hj. vm_compute in Hk. injection Hk as Hp. subst path.
  vm_compute in Hj. discriminate Hj.
Defined.

(** *** The shape printer *)

Lemma string_app_assoc (s1 s2 s3 : string) : (s1 +:+ s2) +:+ s3 = s1 +:+ (s2 +:+ s3).
Proof.
  induction s1 as [|c s1 IH]; [done|].
  change (String c ((s1 +:+ s2) +:+ s3) = String c (s1 +:+ (s2 +:+ s3))). by f_equal.
Qed.

Lemma string_app_nil_r (s : string) : s +:+ "" = s.
Proof.
  induction s as [|c s IH]; [done|].
  change (String c (s +:+ "") = String c s). by f_equal.
Qed.

(** The loop of [size2string] from index [length pre] on. *)
Lemma size2string_loop (size : list Z) (F : string -> Z -> string) :
  Z.of_nat (length size) < 2 ^ 64 ->
  F = (fun ss i =>
         let ss := ss +:+ pretty (size !!! Z.to_nat i) in
         if decide (i < size_t_pred (Z.of_nat (length size))) then ss +:+ ", " else ss) ->
  ∀ rest pre acc, size = (pre ++ rest)%list ->
    foldl F acc (seqZ (Z.of_nat (length pre)) (Z.of_nat (length rest)))
    = acc +:+ String.concat ", " (pretty <$> rest).
Proof.
  intros Hn HF.
  assert (∀ ss i, F ss i =
            let ss := ss +:+ pretty (size !!! Z.to_nat i) in
            if decide (i < size_t_pred (Z.of_nat (length size))) then ss +:+ ", " else ss)
    as HFx by (intros; by rewrite HF).
  clear HF. induction rest as [|x rest IH]; intros pre acc Hs.
  - cbn. by rewrite string_app_nil_r.
  - rewrite seqZ_cons by (cbn [length]; lia).
    cbn [foldl].
    replace (Z.succ (Z.of_nat (length pre))) with (Z.of_nat (length (pre ++ [x])))
      by (rewrite length_app; cbn; lia).
    replace (Z.pred (Z.of_nat (length (x :: rest)))) with (Z.of_nat (length rest))
      by (cbn [length]; lia).
    rewrite IH by (subst size; by rewrite <- app_assoc).
    assert (length size = (length pre + S (length rest))%nat) as Hlen
      by (subst size; by rewrite length_app).
    rewrite HFx. cbv zeta. rewrite Nat2Z.id.
    replace (size !!! length pre) with x
      by (rewrite Hs; by rewrite list_lookup_total_middle).
    unfold size_t_pred. rewrite Z.mod_small by lia.
    destruct rest as [|y rest].
    + rewrite decide_False by (cbn [length] in Hlen; lia).
      cbn. by rewrite string_app_nil_r.
    + rewrite decide_True by (cbn [length] in Hlen; lia).
      cbn [fmap list_fmap String.concat]. by rewrite !string_app_assoc.
Qed.

(** X23: [size2string] prints a shape as its sizes in decimal, in order,
    separated by ", " and enclosed in parentheses, with no separator after
    the last size; the empty shape prints as "()".  The length of the shape
    fits the [int] loop counter. *)
Theorem size2string_joins_with_commas (size : list Z) :
  Z.of_nat (length size) < 2 ^ 31 ->
  size2string size = "(" +:+ String.concat ", " (pretty <$> size) +:+ ")".
Proof.
  intros Hn.
  pose proof (size2string_loop size _ ltac:(lia) eq_refl size [] "(" eq_refl) as H.
  change (Z.of_nat (length (@nil Z))) with 0 in H.
  unfold size2string. cbv zeta in H |- *. rewrite H.
  by rewrite string_app_assoc.
Qed.

Lemma size2string_joins_with_commas_witness :
  size2string [2; 44100] = "(2, 44100)" ∧ size2string [] = "()".
Proof.
  split.
  - apply (size2string_joins_with_commas [2; 44100]). vm_compute. reflexivity.
  - apply (size2string_joins_with_commas []). vm_compute. reflexivity.
Defined.

(** *** What [to_tensor] reads *)

(** X24: the tensor that [to_tensor] builds holds the channel addresses:
    read as 32-bit words, its elements 2k and 2k+1 are the two halves of the
    pointer to channel k, for every channel k that the tensor is large
    enough to reach. *)
Theorem to_tensor_holds_the_channel_addresses h b k :
  0 <= k < getNumChannels b -> 2 * k + 1 < getNumChannels b * getNumSamples b ->
  ∃ data lo hi,
    TorchModel.to_tensor h b = Dense kFloat [getNumChannels b; getNumSamples b] data ∧
    data !! Z.to_nat (2 * k) = Some lo ∧
    data !! Z.to_nat (2 * k + 1) = Some hi ∧
    getReadPointer h b k = Z.lor lo (Z.shiftl hi 32).
Proof.
  intros Hk Hlen.
  unfold TorchModel.to_tensor, TorchModel.from_blob, TorchModel.numel. cbn [foldr].
  rewrite Z.mul_1_r. eexists _, _, _. split; [reflexivity|].
  rewrite !list_lookup_fmap, !lookup_seqZ_lt by lia. cbn [fmap option_fmap option_map].
  split; [reflexivity|]. split; [reflexivity|].
  unfold getReadPointer, load_ptr, getArrayOfReadPointers.
  rewrite !Z2Nat.id by lia. do 3 f_equal; lia.
Qed.

Lemma to_tensor_holds_the_channel_addresses_witness :
  ∃ data lo hi,
    TorchModel.to_tensor (snd mono_buffer) (fst mono_buffer) = Dense kFloat [1; 8] data ∧
    data !! 0%nat = Some lo ∧ data !! 1%nat = Some hi ∧
    getReadPointer (snd mono_buffer) (fst mono_buffer) 0 = Z.lor lo (Z.shiftl hi 32).
Proof.
  apply (to_tensor_holds_the_channel_addresses (snd mono_buffer) (fst mono_buffer) 0);
    vm_compute; split; congruence.
Defined.

(** X25: for a one-channel buffer laid out as its constructor lays it out,
    the samples 16 bytes after the start of the channel table, the tensor
    of [to_tensor] is the audio four samples late: its element j + 4 is
    sample j, and the last four samples are not in it. *)
Theorem mono_tensor_is_the_audio_four_samples_late h b j :
  getNumChannels b = 1 ->
  getReadPointer h b 0 = getArrayOfReadPointers b + 16 ->
  0 <= j -> j + 4 < getNumSamples b ->
  ∃ data,
    TorchModel.to_tensor h b = Dense kFloat [1; getNumSamples b] data ∧
    length data = Z.to_nat (getNumSamples b) ∧
    data !! Z.to_nat (j + 4) = Some (getSample h b 0 j).
Proof.
  intros Hc Hp Hj Hn.
  unfold TorchModel.to_tensor, TorchModel.from_blob, TorchModel.numel. cbn [foldr].
  rewrite Hc, Z.mul_1_r, Z.mul_1_l. eexists. split; [reflexivity|].
  split; [by rewrite length_fmap, length_seqZ|].
  rewrite list_lookup_fmap, lookup_seqZ_lt by lia. cbn [fmap option_fmap option_map].
  unfold getSample. rewrite Hp, Z2Nat.id by lia. do 2 f_equal. lia.
Qed.

Lemma mono_tensor_is_the_audio_four_samples_late_witness :
  ∃ data,
    TorchModel.to_tensor (snd mono_buffer) (fst mono_buffer) = Dense kFloat [1; 8] data ∧
    length data = 8%nat ∧
    data !! 7%nat = Some (getSample (snd mono_buffer) (fst mono_buffer) 0 3).
Proof.
  apply (mono_tensor_is_the_audio_four_samples_late (snd mono_buffer) (fst mono_buffer) 3);
    [reflexivity|vm_compute; reflexivity|lia|vm_compute; reflexivity].
Defined.

(** *** The keyboard of the piano roll *)

(** X26: [KeyboardComponent::paint] paints 128 rows, the highest key on
    top: row k from the top carries the number 127 - k and is dark exactly
    when that key's pitch class is one of 1, 3, 6, 8, 10.  As on a piano, no
    two neighbouring keys are both dark; 53 of the rows are dark. *)
Theorem keyboard_rows_follow_the_piano :
  (∀ k, 0 <= k < 128 ->
     KeyboardComponent.paint !! Z.to_nat k
       = Some (127 - k, KeyboardComponent.is_dark (127 - k))) ∧
  (∀ i, 0 <= i ->
     KeyboardComponent.is_dark i = true -> KeyboardComponent.is_dark (i + 1) = false) ∧
  length (filter (fun row => snd row = true) KeyboardComponent.paint) = 53%nat.
Proof.
  split; [|split].
  - intros k Hk. unfold KeyboardComponent.paint.
    rewrite list_lookup_fmap, reverse_lookup by (rewrite length_seqZ; lia).
    rewrite length_seqZ.
    replace (Z.to_nat 128 - S (Z.to_nat k))%nat with (Z.to_nat (127 - k)) by lia.
    rewrite lookup_seqZ_lt by lia. cbn. by rewrite Z2Nat.id by lia.
  - intros i Hi. unfold KeyboardComponent.is_dark, KeyboardComponent.blackPitches.
    cbv zeta. rewrite !Z.rem_mod_nonneg by lia.
    replace ((i + 1) mod 12) with ((i mod 12 + 1) mod 12)
      by (rewrite Z.add_mod_idemp_l by lia; done).
    pose proof (Z.mod_pos_bound i 12 ltac:(lia)) as Hr.
    intros Hd. apply bool_decide_eq_true in Hd. apply bool_decide_eq_false.
    rewrite !elem_of_cons, elem_of_nil in Hd |- *.
    assert (i mod 12 = 1 ∨ i mod 12 = 3 ∨ i mod 12 = 6 ∨ i mod 12 = 8 ∨ i mod 12 = 10)
      as Hcase by tauto.
    destruct Hcase as [->|[->|[->|[->| ->]]]]; vm_compute; intuition discriminate.
  - vm_compute. reflexivity.
Qed.

Lemma keyboard_rows_follow_the_piano_witness :
  KeyboardComponent.paint !! 0%nat = Some (127, false) ∧
  KeyboardComponent.is_dark 61 = true ∧ KeyboardComponent.is_dark 62 = false.
Proof.
  split; [|split].
  - apply (proj1 keyboard_rows_follow_the_piano 0). lia.
  - reflexivity.
  - apply (proj1 (proj2 keyboard_rows_follow_the_piano) 61); [lia|reflexivity].
Defined.

(** *** The view of a playback region *)

Lemma perform_regions regions : ∀ s,
  foldl (fun s region => PlaybackRegionView.perform
                           (PlaybackRegionView.RegionContentChanged region) s) s regions
  = {| PlaybackRegionView.dimmed := PlaybackRegionView.dimmed s;
       PlaybackRegionView.playbackRegions := PlaybackRegionView.playbackRegions s;
       PlaybackRegionView.playbackRegion := PlaybackRegionView.playbackRegion s;
       PlaybackRegionView.isSelected := PlaybackRegionView.isSelected s;
       PlaybackRegionView.effects :=
         PlaybackRegionView.effects s ++
         (PlaybackRegionView.RegionContentChanged <$> regions) |}.
Proof.
  induction regions as [|r regions IH]; intros s; cbn [foldl fmap list_fmap].
  - rewrite app_nil_r. by destruct s.
  - rewrite IH. cbn. by rewrite <- app_assoc.
Qed.

(** X27: a double click on the view of a region flips the [dimmed] flag of
    the region's audio modification, then announces a content change once
    for the modification and once for each of its playback regions, in
    order; the selection is not touched.  A second double click puts the
    flag back. *)
Theorem double_click_toggles_dimmed (s : PlaybackRegionView.State) :
  let s1 := PlaybackRegionView.mouseDoubleClick s in
  PlaybackRegionView.isDimmed s1 = negb (PlaybackRegionView.isDimmed s) ∧
  PlaybackRegionView.effects s1 =
    (PlaybackRegionView.effects s ++
     PlaybackRegionView.ModificationContentChanged ::
     (PlaybackRegionView.RegionContentChanged <$> PlaybackRegionView.playbackRegions s))%list ∧
  PlaybackRegionView.isSelected s1 = PlaybackRegionView.isSelected s ∧
  PlaybackRegionView.isDimmed (PlaybackRegionView.mouseDoubleClick s1)
    = PlaybackRegionView.isDimmed s.
Proof.
  cbv zeta. unfold PlaybackRegionView.mouseDoubleClick. rewrite !perform_regions.
  cbn. rewrite <- app_assoc, negb_involutive. done.
Qed.

(** X28: after [onNewSelection] the view's [isSelected] says whether its
    region is among the selected ones, and the view was repainted exactly
    when that answer changed; so a selection reported twice repaints at
    most once. *)
Theorem selection_is_tracked_without_needless_repaints sel (s : PlaybackRegionView.State) :
  let s1 := PlaybackRegionView.onNewSelection sel s in
  (PlaybackRegionView.isSelected s1 = true ↔ PlaybackRegionView.playbackRegion s ∈ sel) ∧
  PlaybackRegionView.effects s1 =
    (PlaybackRegionView.effects s ++
     if bool_decide (PlaybackRegionView.isSelected s1 = PlaybackRegionView.isSelected s)
     then [] else [PlaybackRegionView.Repaint])%list ∧
  PlaybackRegionView.onNewSelection sel s1 = s1.
Proof.
  cbv zeta. unfold PlaybackRegionView.onNewSelection.
  destruct s as [d rs r sel0 evs]. cbn.
  assert (bool_decide (true ≠ false) = true) as Etf by done.
  assert (bool_decide (false ≠ true) = true) as Eft by done.
  assert (bool_decide (true ≠ true) = false) as Ett by done.
  assert (bool_decide (false ≠ false) = false) as Eff by done.
  destruct (bool_decide (r ∈ sel)) eqn:Hin, sel0;
    rewrite ?Etf, ?Eft, ?Ett, ?Eff; cbn;
    rewrite ?Hin, ?Etf, ?Eft, ?Ett, ?Eff, ?app_nil_r;
    (split; [|done]);
    (apply bool_decide_eq_true in Hin || apply bool_decide_eq_false in Hin);
    split; intros; done.
Qed.

(** *** [load], [process] and the caller together *)

(** X29: [load] reads the card of the graph but does not look at its
    methods: it returns true for a graph that has no "resample".  The
    [process] that follows then ends with the [c10::Error] of
    [get_method], uncaught, before anything is called or written. *)
Theorem load_does_not_check_the_methods T params w w1 m p b sr ps :
  TorchModel.load T params w = (Normal true, w1) ->
  m_model (self w1) = Some m -> methods m !! "resample" = None ->
  buffers w1 !! p = Some b ->
  ∃ msg, TorchWave2Wave.process T p sr ps w1 = (Thrown (C10Error msg), w1).
Proof.
  intros Hl Hm Hr Hb.
  assert (m_mutex (self w1) = false) as Hmx.
  { apply load_true_inv in Hl as (? & ? & ? & ? & _ & _ & _ & _ & _ & ->). done. }
  unfold TorchWave2Wave.process, lock_guard. rewrite Hmx.
  unfold bind at 1. unfold deref at 1. cbn [buffers with_self]. rewrite Hb.
  unfold bind at 1. unfold gets at 1.
  destruct (TorchWave2Wave.marshal ps) as [parameters parameters2].
  unfold try_catch_cstr, bind at 1, invoke, bind at 1, with_m_model.
  cbn [self with_self m_model set_m_mutex]. rewrite Hm, Hr. unfold throw.
  eexists. f_equal. destruct w1 as [[? ? ? ?] ? ? ?]. cbn in *. by subst.
Qed.

Lemma load_does_not_check_the_methods_witness :
  let run := TorchModel.load methodless_torch valid_params fresh_world in
  fst run = Normal true ∧
  ∃ msg, TorchWave2Wave.process methodless_torch 0%nat 44100 gain_params (snd run)
         = (Thrown (C10Error msg), snd run).
Proof.
  intros run. split; [vm_compute; reflexivity|].
  apply (load_does_not_check_the_methods methodless_torch valid_params fresh_world
           (snd run) (eval methodless_graph) 0%nat (fst one_sample_buffer) 44100 gain_params);
    [apply run_eq; vm_compute; reflexivity|vm_compute; reflexivity..].
Defined.


